(** * PretextState: the processing state of the PreTeXt-to-JSX transformation

    A shallow embedding of [packages/jsx/src/state/index.ts].  The class
    [PretextState] keeps an identifier allocator (a [Slugger] and a cache of
    explicitly declared ids) and several indices over the XAST tree (parent
    map, block numbers, division membership), together with the lookup
    methods that read them.

    JavaScript objects have an identity, and the [WeakMap]s and the [WeakSet]
    of the class are keyed by it.  Every node of the tree therefore carries
    the address of its object; the weak maps are finite maps over
    addresses. *)

From Stdlib Require Import Ascii.
From stdpp Require Import gmap strings pretty list fin_maps.

#[local] Set Warnings "-register-all,-clear-no-such-hyp".

(** ** The XAST tree *)

(** The address of a JavaScript object: what [WeakMap] and [WeakSet] compare. *)
Abbreviation Addr := nat (only parsing).

(** [XastElement | XastText | ...]: what the [children] array of a root or of
    an element holds.  [attributes] is optional on an element, hence the
    [option]; only elements have children. *)
Inductive XastContent : Type :=
| XastElement (id : Addr) (name : string)
    (attributes : option (gmap string string)) (children : list XastContent)
| XastText (id : Addr) (value : string)
| XastComment (id : Addr) (value : string)
| XastCdata (id : Addr) (value : string)
| XastInstruction (id : Addr) (name value : string)
| XastDoctype (id : Addr) (name : string).

(** [XastRoot]: [{ type: "root", children }]. *)
Record XastRoot : Type := mkRoot {
  root_id : Addr;
  root_children : list XastContent
}.

(** [XastNode]: the union of the root and the content nodes. *)
Inductive XastNode : Type :=
| NodeRoot (r : XastRoot)
| NodeContent (c : XastContent).

Definition content_id (c : XastContent) : Addr :=
  match c with
  | XastElement a _ _ _ | XastText a _ | XastComment a _ | XastCdata a _
  | XastInstruction a _ _ | XastDoctype a _ => a
  end.

Definition node_id (n : XastNode) : Addr :=
  match n with
  | NodeRoot r => root_id r
  | NodeContent c => content_id c
  end.

(** [node.children], empty for the nodes that have none. *)
Definition content_children (c : XastContent) : list XastContent :=
  match c with
  | XastElement _ _ _ cs => cs
  | _ => []
  end.

Definition node_children (n : XastNode) : list XastContent :=
  match n with
  | NodeRoot r => root_children r
  | NodeContent c => content_children c
  end.

(** [isElement] of [utils/tools]: [node.type === "element"]. *)
Definition isElement (n : XastNode) : bool :=
  match n with
  | NodeContent (XastElement _ _ _ _) => true
  | _ => false
  end.

(** [node.name]; [undefined] on a node that has no name. *)
Definition node_name (n : XastNode) : option string :=
  match n with
  | NodeContent (XastElement _ nm _ _) => Some nm
  | NodeContent (XastInstruction _ nm _) => Some nm
  | NodeContent (XastDoctype _ nm) => Some nm
  | _ => None
  end.

(** [node.attributes?.[key] || ""]: the optional chain gives [undefined] when
    the node has no attributes or no such attribute, and [||] turns
    [undefined] and the empty string into [""]. *)
Definition attribute_or_empty (key : string) (n : XastNode) : string :=
  match n with
  | NodeContent (XastElement _ _ (Some attrs) _) => default "" (attrs !! key)
  | _ => ""
  end.

(** ** Records of the state *)

(** Modelled from the spec: [TocItem] is declared in [./types], which is not
    part of the sources at hand.  Section 3: an entry of the table of
    contents has an identifier, a division kind and title content; the
    entries form an ordered forest. *)
Inductive TocItem : Type :=
| mkTocItem (id division : string) (title : list XastContent)
    (children : list TocItem).

Definition toc_division (i : TocItem) : string :=
  match i with mkTocItem _ d _ _ => d end.

(** The values of [_tocInfoMap]. *)
Record TocInfo : Type := mkTocInfo {
  numbering : list nat;
  level : nat;
  parent : option TocItem;
  item : TocItem
}.

(** [XRefTargetInfo]. *)
Record XRefTargetInfo : Type := mkXRefTargetInfo {
  xref_node : XastContent;
  xref_tag : string;
  xref_id : string;
  xref_title : list XastNode;
  xref_codenumber : string
}.

(** What [getBlockInfo] returns; [number] is [undefined] for a node that
    [_xastBlockToNumber] does not know. *)
Record BlockInfo : Type := mkBlockInfo {
  displayName : string;
  number : option nat;
  divisionInfo : TocInfo
}.

(** [PretextState].  [docinfo], [schema], [frontmatter] and [processContent]
    are plain data that no method below reads; they are left out.
    [_slugger] is the slugger's [occurrences] object.  [_declaredIdCache] is a
    JavaScript [Set]: it iterates in insertion order, so it is a list that
    holds no id twice. *)
Record PretextState : Type := mkState {
  _slugger : gmap string nat;
  _declaredIdCache : list string;
  toc : list TocItem;
  _tocInfoMap : gmap string TocInfo;
  _xrefableMap : gmap string XRefTargetInfo;
  root : XastRoot;
  _parentMap : gmap nat XastNode;
  _xastNodeToTocDivisionId : gmap nat string;
  _xastDivisions : gset nat;
  _xastBlockToNumber : gmap nat nat
}.

Definition set_slugger (occ : gmap string nat) (st : PretextState) :=
  mkState occ (_declaredIdCache st) (toc st) (_tocInfoMap st)
    (_xrefableMap st) (root st) (_parentMap st) (_xastNodeToTocDivisionId st)
    (_xastDivisions st) (_xastBlockToNumber st).

Definition set_declaredIdCache (c : list string) (st : PretextState) :=
  mkState (_slugger st) c (toc st) (_tocInfoMap st)
    (_xrefableMap st) (root st) (_parentMap st) (_xastNodeToTocDivisionId st)
    (_xastDivisions st) (_xastBlockToNumber st).

Definition set_root (r : XastRoot) (st : PretextState) :=
  mkState (_slugger st) (_declaredIdCache st) (toc st) (_tocInfoMap st)
    (_xrefableMap st) r (_parentMap st) (_xastNodeToTocDivisionId st)
    (_xastDivisions st) (_xastBlockToNumber st).

Definition set_parentMap (m : gmap nat XastNode) (st : PretextState) :=
  mkState (_slugger st) (_declaredIdCache st) (toc st) (_tocInfoMap st)
    (_xrefableMap st) (root st) m (_xastNodeToTocDivisionId st)
    (_xastDivisions st) (_xastBlockToNumber st).

Definition set_xastNodeToTocDivisionId (m : gmap nat string)
    (st : PretextState) :=
  mkState (_slugger st) (_declaredIdCache st) (toc st) (_tocInfoMap st)
    (_xrefableMap st) (root st) (_parentMap st) m
    (_xastDivisions st) (_xastBlockToNumber st).

Definition set_xastDivisions (s : gset nat) (st : PretextState) :=
  mkState (_slugger st) (_declaredIdCache st) (toc st) (_tocInfoMap st)
    (_xrefableMap st) (root st) (_parentMap st) (_xastNodeToTocDivisionId st)
    s (_xastBlockToNumber st).

Definition set_xastBlockToNumber (m : gmap nat nat) (st : PretextState) :=
  mkState (_slugger st) (_declaredIdCache st) (toc st) (_tocInfoMap st)
    (_xrefableMap st) (root st) (_parentMap st) (_xastNodeToTocDivisionId st)
    (_xastDivisions st) m.

Definition set_tocInfoMap (m : gmap string TocInfo) (st : PretextState) :=
  mkState (_slugger st) (_declaredIdCache st) (toc st) m
    (_xrefableMap st) (root st) (_parentMap st) (_xastNodeToTocDivisionId st)
    (_xastDivisions st) (_xastBlockToNumber st).

Definition set_xrefableMap (m : gmap string XRefTargetInfo)
    (st : PretextState) :=
  mkState (_slugger st) (_declaredIdCache st) (toc st) (_tocInfoMap st)
    m (root st) (_parentMap st) (_xastNodeToTocDivisionId st)
    (_xastDivisions st) (_xastBlockToNumber st).

(** [new PretextState()]: every index starts empty.  [fresh] is the address
    of the placeholder root object [{ type: "root", children: [] }] the
    constructor allocates. *)
Definition constructor (fresh : Addr) : PretextState :=
  mkState ∅ [] [] ∅ ∅ (mkRoot fresh []) ∅ ∅ ∅ ∅.

Section State.

(** ** The identifier allocator *)

(** Modelled from the spec: the [Slugger] class comes from the npm package
    [github-slugger], whose code is not part of the sources.  Section 4.1:
    an identifier is "a slug derived from [preferredName] (...), disambiguated
    by appending an incrementing numeric suffix on collision", and the
    allocator keeps an "occurrence ledger".  [slugger] is the package's
    normaliser with [maintainCase] set (it deletes the characters of a fixed
    class and replaces each space by a hyphen); it is a parameter. *)
Variable slugger : string → string.

(** The package's loop

      while (own.call(self.occurrences, result)) {
        self.occurrences[originalSlug]++
        result = originalSlug + '-' + self.occurrences[originalSlug]
      }

    [originalSlug] is a key of [occurrences] whenever the body runs, so the
    [default] below is never taken.  The loop is run on fuel;
    [slug_loop_terminates] shows that the fuel [slug] supplies is enough. *)
Fixpoint slug_loop (fuel : nat) (occ : gmap string nat)
    (originalSlug result : string) : option (gmap string nat * string) :=
  match occ !! result with
  | None => Some (occ, result)
  | Some _ =>
      match fuel with
      | O => None
      | S fuel' =>
          let n := S (default 0 (occ !! originalSlug)) in
          slug_loop fuel' (<[originalSlug := n]> occ) originalSlug
            (originalSlug +:+ "-" +:+ pretty n)
      end
  end.

(** [Slugger.slug(value, true)]: the loop, then [occurrences[result] = 0]. *)
Definition slug (value : string) (occ : gmap string nat)
    : option (string * gmap string nat) :=
  let originalSlug := slugger value in
  match slug_loop (S (size occ)) occ originalSlug originalSlug with
  | Some (occ', result) => Some (result, <[result := 0]> occ')
  | None => None
  end.

(** [declareId(id)]. *)
Definition declareId (id : string) (st : PretextState)
    : bool * PretextState :=
  if bool_decide (id ∈ _declaredIdCache st)
     || match _slugger st !! id with
        | Some n => bool_decide (0 < n)
        | None => false
        end
  then (true, st)
  else (false, set_declaredIdCache (_declaredIdCache st ++ [id]) st).

(** [this._declaredIdCache.forEach((id) => this._slugger.slug(id, true))]. *)
Fixpoint drain (ids : list string) (occ : gmap string nat)
    : option (gmap string nat) :=
  match ids with
  | [] => Some occ
  | id :: ids' =>
      match slug id occ with
      | Some (_, occ') => drain ids' occ'
      | None => None
      end
  end.

(** [preferredName || "auto-generated-id"]. *)
Definition preferred_or_default (preferredName : option string) : string :=
  match preferredName with
  | Some s => if bool_decide (s = "") then "auto-generated-id" else s
  | None => "auto-generated-id"
  end.

(** [getUniqueId(preferredName?)]. *)
Definition getUniqueId (preferredName : option string) (st : PretextState)
    : option (string * PretextState) :=
  let drained :=
    if bool_decide (0 < length (_declaredIdCache st))
    then match drain (_declaredIdCache st) (_slugger st) with
         | Some occ => Some (set_declaredIdCache [] (set_slugger occ st))
         | None => None
         end
    else Some st in
  match drained with
  | Some st1 =>
      match slug (preferred_or_default preferredName) (_slugger st1) with
      | Some (result, occ) => Some (result, set_slugger occ st1)
      | None => None
      end
  | None => None
  end.

(** A sequence of calls on one [PretextState], and what each call returned. *)
Inductive Call : Type :=
| CallDeclareId (id : string)
| CallGetUniqueId (preferredName : option string).

Inductive Outcome : Type :=
| Declared (already : bool)
| Generated (id : string).

Definition call (c : Call) (st : PretextState)
    : option (Outcome * PretextState) :=
  match c with
  | CallDeclareId id =>
      let '(b, st') := declareId id st in Some (Declared b, st')
  | CallGetUniqueId preferredName =>
      match getUniqueId preferredName st with
      | Some (r, st') => Some (Generated r, st')
      | None => None
      end
  end.

Fixpoint run (calls : list Call) (st : PretextState)
    : option (list Outcome * PretextState) :=
  match calls with
  | [] => Some ([], st)
  | c :: calls' =>
      match call c st with
      | Some (o, st') =>
          match run calls' st' with
          | Some (os, st'') => Some (o :: os, st'')
          | None => None
          end
      | None => None
      end
  end.

(** ** The tree walker *)

(** The second argument of a visitor: [info.parents], nearest parent first. *)
Record VisitInfo : Type := mkVisitInfo { parents : list XastNode }.

(** Modelled from the spec: [visit] is defined in [utils/xast], which is not
    part of the sources.  Section 4.2: it "visits every node reachable from
    [root] in document (pre-)order, invoking [visit(node,
    ancestorChainNearestFirst)] for each node matching [filter] (default: all
    nodes)".  [walk] lists a subtree in that order, each node with its chain
    of ancestors. *)
Fixpoint walk (ps : list XastNode) (c : XastContent) {struct c}
    : list (XastNode * list XastNode) :=
  (NodeContent c, ps) ::
  match c with
  | XastElement _ _ _ cs => cs ≫= walk (NodeContent c :: ps)
  | _ => []
  end.

Definition traversal (r : XastRoot) : list (XastNode * list XastNode) :=
  (NodeRoot r, []) :: (root_children r ≫= walk [NodeRoot r]).

(** The visitors of this file close over [this] and over local variables and
    update them: a visitor is a function on the state [S] it updates. *)
Definition visit {S : Type} (r : XastRoot)
    (visitor : XastNode → VisitInfo → S → S) (test : XastNode → bool)
    (s : S) : S :=
  foldl (λ s x, visitor x.1 (mkVisitInfo x.2) s) s
    (List.filter (λ x, test x.1) (traversal r)).

(** ** The index passes *)

(** [_generateParentMap()]. *)
Definition _generateParentMap (st : PretextState) : PretextState :=
  visit (root st)
    (λ node info st,
       match parents info with
       | parent :: _ =>
           set_parentMap (<[node_id node := parent]> (_parentMap st)) st
       | [] => st
       end)
    (λ _, true) st.

(** [isDivision] and [NUMBERED_BLOCKS] are imported from
    [stages/helpers/special-tags], which is not part of the sources: "a
    fixed, externally supplied classification" (Section 4.4).  They are
    parameters. *)
Variable isDivision : XastNode → bool.
Variable NUMBERED_BLOCKS : gset string.

(** [NUMBERED_BLOCKS.has(node.name)]. *)
Definition is_numbered_block (n : XastNode) : bool :=
  match node_name n with
  | Some nm => bool_decide (nm ∈ NUMBERED_BLOCKS)
  | None => false
  end.

(** The visitor of [_generateBlockToNumberMap]; the local variable [number]
    is threaded next to the state. *)
Definition number_block (node : XastNode) (s : PretextState * nat)
    : PretextState * nat :=
  let '(st, number) := s in
  let number := if isDivision node then 0 else number in
  if is_numbered_block node
  then (set_xastBlockToNumber
          (<[node_id node := number]> (_xastBlockToNumber st)) st,
        S number)
  else (st, number).

(** [_generateBlockToNumberMap()]. *)
Definition _generateBlockToNumberMap (st : PretextState) : PretextState :=
  (visit (root st) (λ node _ s, number_block node s) isElement (st, 0)).1.

(** [isElement(node) && this._xastDivisions.has(node)]. *)
Definition is_recorded_division (st : PretextState) (n : XastNode) : bool :=
  isElement n && bool_decide (node_id n ∈ _xastDivisions st).

(** The [for (const parent of info.parents)] loop of
    [_generateNodeToDivisionIdMap], which stops at the first parent that is
    recorded as a division. *)
Fixpoint division_parent_loop (node : XastNode) (ps : list XastNode)
    (st : PretextState) : PretextState :=
  match ps with
  | [] => st
  | parent :: ps' =>
      if is_recorded_division st parent
      then set_xastNodeToTocDivisionId
             (<[node_id node := attribute_or_empty "xml:id" parent]>
                (_xastNodeToTocDivisionId st)) st
      else division_parent_loop node ps' st
  end.

(** [_generateNodeToDivisionIdMap()]. *)
Definition _generateNodeToDivisionIdMap (st : PretextState) : PretextState :=
  visit (root st)
    (λ node info st,
       if is_recorded_division st node
       then set_xastNodeToTocDivisionId
              (<[node_id node := attribute_or_empty "xml:id" node]>
                 (_xastNodeToTocDivisionId st)) st
       else division_parent_loop node (parents info) st)
    (λ _, true) st.

(** [_generateToc] and [_generateRefalbeInfoMap] are assigned from
    [./helpers/toc] and [./helpers/refs], which are not part of the sources.
    They are parameters of [setRoot]. *)
Variable _generateToc : PretextState → PretextState.
Variable _generateRefalbeInfoMap : PretextState → PretextState.

(** [setRoot(root)]. *)
Definition setRoot (r : XastRoot) (st : PretextState) : PretextState :=
  _generateRefalbeInfoMap (_generateToc (_generateParentMap (set_root r st))).

(** ** The queries *)

(** [getTocItemInfo(node)]; [if (tocParentId)] fails for [undefined] and for
    the empty string. *)
Definition getTocItemInfo (st : PretextState) (node : XastNode)
    : option TocInfo :=
  match _xastNodeToTocDivisionId st !! node_id node with
  | Some tocParentId =>
      if bool_decide (tocParentId = "") then None
      else _tocInfoMap st !! tocParentId
  | None => None
  end.

(** [getRefTargetInfo(node)]. *)
Definition getRefTargetInfo (st : PretextState) (node : XastNode)
    : option XRefTargetInfo :=
  let refTargetId := attribute_or_empty "ref" node in
  _xrefableMap st !! refTargetId.

(** [STRING_ID_TO_DISPLAY_NAME] is imported from [./i18n], which is not part
    of the sources: "a static externally-owned table" (Section 6). *)
Variable STRING_ID_TO_DISPLAY_NAME : gmap string string.

(** [getDivisionDisplayName(node)]; [tocParentId || ""] is the empty string
    for a node the map does not know. *)
Definition getDivisionDisplayName (st : PretextState) (node : XastNode)
    : option string :=
  let tocParentId := _xastNodeToTocDivisionId st !! node_id node in
  match _tocInfoMap st !! default "" tocParentId with
  | Some tocInfo => STRING_ID_TO_DISPLAY_NAME !! toc_division (item tocInfo)
  | None => None
  end.

(** [STRING_ID_TO_DISPLAY_NAME[name] || name]. *)
Definition display_name_or (name : string) : string :=
  match STRING_ID_TO_DISPLAY_NAME !! name with
  | Some s => if bool_decide (s = "") then name else s
  | None => name
  end.

(** [getBlockInfo(node)].  The parameter is an [XastElement]: the function
    takes the element's fields. *)
Definition getBlockInfo (st : PretextState) (id : Addr) (name : string)
    (attributes : option (gmap string string)) (children : list XastContent)
    : option BlockInfo :=
  let node := NodeContent (XastElement id name attributes children) in
  let number := _xastBlockToNumber st !! node_id node in
  match getTocItemInfo st node with
  | None => None
  | Some divisionInfo =>
      Some (mkBlockInfo (display_name_or name) number divisionInfo)
  end.

End State.

(** ** The notions the statements are written in *)

(** [node.attributes?.[key]]: [None] when the node has no attributes or no
    such attribute. *)
Definition node_attribute (key : string) (n : XastNode) : option string :=
  match n with
  | NodeContent (XastElement _ _ (Some attrs) _) => attrs !! key
  | _ => None
  end.

(** The addresses of the objects of a tree, the root's first.  In a tree no
    object occurs twice: [NoDup (tree_ids r)]. *)
Fixpoint content_ids (c : XastContent) : list nat :=
  content_id c ::
  match c with
  | XastElement _ _ _ cs => cs ≫= content_ids
  | _ => []
  end.

Definition tree_ids (r : XastRoot) : list nat :=
  root_id r :: (root_children r ≫= content_ids).

(** [descends top tps n ps]: [n] is [top] or lies below it, and [ps] is the
    chain of the ancestors of [n], nearest first, when [tps] is that of
    [top].  Each step goes from a node to one of its [children]. *)
Inductive descends (top : XastNode) (tps : list XastNode)
    : XastNode → list XastNode → Prop :=
| descends_top : descends top tps top tps
| descends_child p ps c :
    descends top tps p ps →
    c ∈ node_children p →
    descends top tps (NodeContent c) (p :: ps).

(** [in_tree r n ps]: [n] is a node of the tree [r], with ancestors [ps]. *)
Definition in_tree (r : XastRoot) (n : XastNode) (ps : list XastNode) : Prop :=
  descends (NodeRoot r) [] n ps.

(** The nodes of a tree in document order: a node, then its children's
    subtrees from left to right. *)
Fixpoint preorder_content (c : XastContent) : list XastNode :=
  NodeContent c ::
  match c with
  | XastElement _ _ _ cs => cs ≫= preorder_content
  | _ => []
  end.

Definition preorder (r : XastRoot) : list XastNode :=
  NodeRoot r :: (root_children r ≫= preorder_content).

(** What was visited from the most recent division on, that division
    included; everything when no division was visited. *)
Fixpoint since_last_division (isDivision : XastNode → bool)
    (visited : list XastNode) : list XastNode :=
  match visited with
  | [] => []
  | n :: rest =>
      if existsb isDivision rest then since_last_division isDivision rest
      else n :: rest
  end.

(** The number the specification gives the block [b] that is visited after
    [before]: the count of the numbered blocks visited since the most recent
    division, which may be [b] itself, and before [b]. *)
Definition blocks_since_division (isDivision : XastNode → bool)
    (NUMBERED_BLOCKS : gset string) (before : list XastNode) (b : XastNode)
    : nat :=
  length (List.filter (is_numbered_block NUMBERED_BLOCKS)
            (removelast (since_last_division isDivision (before ++ [b])))).

(** The division a node belongs to: the node itself when it is recorded as a
    division, else the first recorded division on its chain of ancestors. *)
Definition nearest_division (st : PretextState) (n : XastNode)
    (ps : list XastNode) : option XastNode :=
  if is_recorded_division st n then Some n
  else List.find (is_recorded_division st) ps.

(** The entry of the ToC info map under the identifier the division-membership
    map records for the division [d]. *)
Definition toc_entry_of (st : PretextState) (d : XastNode) : option TocInfo :=
  _tocInfoMap st !! attribute_or_empty "xml:id" d.


(** The visitor of [_generateParentMap] on a visit of the walk. *)
Definition parent_visitor (st : PretextState) (x : XastNode * list XastNode)
    : PretextState :=
  match x.2 with
  | parent :: _ => set_parentMap (<[node_id x.1 := parent]> (_parentMap st)) st
  | [] => st
  end.

(** The visitor of [_generateNodeToDivisionIdMap] on a visit of the walk. *)
Definition division_visitor (st : PretextState)
    (x : XastNode * list XastNode) : PretextState :=
  if is_recorded_division st x.1
  then set_xastNodeToTocDivisionId
         (<[node_id x.1 := attribute_or_empty "xml:id" x.1]>
            (_xastNodeToTocDivisionId st)) st
  else division_parent_loop x.1 x.2 st.

(** The visitor of [_generateBlockToNumberMap] on the nodes alone; it does
    not read [info]. *)
Definition number_step (isDivision : XastNode → bool)
    (NUMBERED_BLOCKS : gset string) (s : PretextState * nat) (n : XastNode)
    : PretextState * nat :=
  number_block isDivision NUMBERED_BLOCKS n s.

(** The block pass writes [_xastBlockToNumber] and nothing else. *)
Definition same_but_blocks (st st' : PretextState) : Prop :=
  root st' = root st ∧ _xastDivisions st' = _xastDivisions st
  ∧ _tocInfoMap st' = _tocInfoMap st
  ∧ _xastNodeToTocDivisionId st' = _xastNodeToTocDivisionId st.

(** Whether a state holds an entry keyed by an object of the tree [r] in one
    of its maps from nodes. *)
Definition retains_no_entry_of (r : XastRoot) (st : PretextState) : Prop :=
  ∀ a, a ∈ tree_ids r →
    _parentMap st !! a = None
    ∧ _xastNodeToTocDivisionId st !! a = None
    ∧ _xastBlockToNumber st !! a = None.

(** The ids generated so far ([G]) are keys of the ledger; an id declared so
    far ([D]) waits in the cache, or it or its slug is a key of the ledger. *)
Definition reserved (slugger : string → string) (st : PretextState)
    (G D : list string) : Prop :=
  (∀ g, g ∈ G → g ∈ dom (_slugger st))
  ∧ (∀ d, d ∈ D →
       d ∈ _declaredIdCache st
       ∨ slugger d ∈ dom (_slugger st)
       ∨ d ∈ dom (_slugger st)).

(** ** The missing passes, and the documents the statements are tried at *)

(** A classification by tag name: the elements whose name is in [tags]. *)
Definition tagged (tags : gset string) (n : XastNode) : bool :=
  isElement n &&
  match node_name n with
  | Some nm => bool_decide (nm ∈ tags)
  | None => false
  end.

(** Modelled from the spec: [_generateToc] is defined in [./helpers/toc],
    which is not part of the sources.  Section 2: the ToC pass "internally
    uses Division Classifier, Block Numbering Index, Division-Membership
    Index".  This model records the division elements of the tree in
    [_xastDivisions] and runs the two index passes; how the helper builds the
    ToC forest and the ToC info map is not known, and they are left as they
    are.  The statements about [setRoot] hold for every ToC pass that leaves
    the parent map alone; this one is where they are tried. *)
Definition toc_pass_model (isDivision : XastNode → bool)
    (NUMBERED_BLOCKS : gset string) (st : PretextState) : PretextState :=
  let divisions :=
    node_id <$> List.filter (λ n, isElement n && isDivision n)
                  (preorder (root st)) in
  _generateNodeToDivisionIdMap
    (_generateBlockToNumberMap isDivision NUMBERED_BLOCKS
       (set_xastDivisions (list_to_set divisions ∪ _xastDivisions st) st)).

(** Modelled from the spec: [_generateRefalbeInfoMap] is defined in
    [./helpers/refs], which is not part of the sources.  Section 4.6: the
    pass "collects every node whose tag marks it as
    reference-target-eligible"; titles and display numbers come from helpers
    that are not known.  This model is the pass for a document none of whose
    tags is reference-target-eligible: it records nothing. *)
Definition refs_pass_model (st : PretextState) : PretextState := st.

(** The document of Section 8:
    [root > chapter#c1 > (definition, theorem, section#s1 > definition)]. *)
Definition inner_definition : XastContent :=
  XastElement 5 "definition" None [].
Definition section_s1 : XastContent :=
  XastElement 4 "section" (Some {["xml:id" := "s1"]}) [inner_definition].
Definition outer_definition : XastContent :=
  XastElement 2 "definition" None [].
Definition theorem_node : XastContent :=
  XastElement 3 "theorem" None [].
Definition chapter_c1 : XastContent :=
  XastElement 1 "chapter" (Some {["xml:id" := "c1"]})
    [outer_definition; theorem_node; section_s1].
Definition scenario_root : XastRoot := mkRoot 0 [chapter_c1].

(** A second document, which shares no object with the first:
    [root > article > p > "text"]. *)
Definition other_text : XastContent := XastText 13 "text".
Definition other_p : XastContent := XastElement 12 "p" None [other_text].
Definition other_article : XastContent :=
  XastElement 11 "article" None [other_p].
Definition other_root : XastRoot := mkRoot 10 [other_article].

Definition sample_divisions : gset string :=
  {["chapter"; "section"; "article"]}.
Definition sample_numbered_blocks : gset string :=
  {["definition"; "theorem"]}.

(** A document whose only division carries no [xml:id]:
    [root > chapter > p]; and the same in a state whose ToC info map holds an
    entry under the empty string. *)
Definition lone_p : XastContent := XastElement 22 "p" None [].
Definition chapter_without_id : XastContent :=
  XastElement 21 "chapter" None [lone_p].
Definition unlabelled_root : XastRoot := mkRoot 20 [chapter_without_id].
Definition chapter_info : TocInfo :=
  mkTocInfo [1] 0 None (mkTocItem "" "chapter" [] []).
Definition unlabelled_state : PretextState :=
  set_xastDivisions {[21]} (set_root unlabelled_root (constructor 0)).
Definition unlabelled_state_with_entry : PretextState :=
  set_tocInfoMap {["" := chapter_info]} unlabelled_state.
Definition sample_display_names : gmap string string :=
  {["chapter" := "Chapter"; "definition" := "Definition"]}.


(** A state whose cross-reference index holds an entry under the empty
    string. *)
Definition nameless_target : XRefTargetInfo :=
  mkXRefTargetInfo (XastElement 61 "theorem" None []) "theorem" "" [] "1.1".
Definition nameless_target_state : PretextState :=
  set_xrefableMap {["" := nameless_target]} (constructor 0).

(** The document of Section 8 with its chapter and its section recorded as
    divisions, and a ToC entry for each. *)
Definition c1_info : TocInfo :=
  mkTocInfo [1] 0 None (mkTocItem "c1" "chapter" [] []).
Definition s1_info : TocInfo :=
  mkTocInfo [1; 1] 1 None (mkTocItem "s1" "section" [] []).
Definition scenario_state : PretextState :=
  set_tocInfoMap {["c1" := c1_info; "s1" := s1_info]}
    (set_xastDivisions {[1; 4]} (set_root scenario_root (constructor 100))).

(** Modelled from the spec: the normaliser of [github-slugger] on ASCII
    text.  It deletes the control characters and the punctuation other than
    the hyphen and the underscore, and replaces every space by a hyphen
    (Section 4.1 and the glossary: "a normalized, URL/identifier-safe
    string").  It is the normaliser the statements about the allocator are
    tried at. *)
Definition slugger_removes (c : ascii) : bool :=
  let n := nat_of_ascii c in
  (n <? 32) || ((33 <=? n) && (n <=? 44)) || (n =? 46) || (n =? 47)
  || ((58 <=? n) && (n <=? 64)) || ((91 <=? n) && (n <=? 94)) || (n =? 96)
  || ((123 <=? n) && (n <=? 127)).

Fixpoint ascii_slugger (s : string) : string :=
  match s with
  | EmptyString => EmptyString
  | String c s' =>
      if slugger_removes c then ascii_slugger s'
      else String (if Ascii.eqb c " " then "-"%char else c) (ascii_slugger s')
  end.


(** What a sequence of calls on a new state returns. *)
Definition outcomes (calls : list Call) : option (list Outcome) :=
  fst <$> run ascii_slugger calls (constructor 0).

(** A document with a processing instruction that bears the name of a
    numbered block: [root > chapter#c1 > (<?theorem?>, theorem)]. *)
Definition theorem_instruction : XastContent :=
  XastInstruction 32 "theorem" "".
Definition theorem_element : XastContent := XastElement 33 "theorem" None [].
Definition chapter_with_instruction : XastContent :=
  XastElement 31 "chapter" (Some {["xml:id" := "c1"]})
    [theorem_instruction; theorem_element].
Definition instruction_root : XastRoot := mkRoot 30 [chapter_with_instruction].
Definition instruction_state : PretextState :=
  set_xastDivisions {[31]} (set_root instruction_root (constructor 0)).

(** A document in which one object occurs twice, as a child of two
    elements: [root > (a > x, b > x)] with the same text node [x]. *)
Definition shared_text : XastContent := XastText 43 "shared".
Definition first_holder : XastContent := XastElement 41 "a" None [shared_text].
Definition second_holder : XastContent :=
  XastElement 42 "b" None [shared_text].
Definition shared_root : XastRoot := mkRoot 40 [first_holder; second_holder].

(** ** Notions of the further properties *)

(** [originalSlug + '-' + n]: the candidate the slugger tries at count [n]. *)
Definition suffixed (s : string) (n : nat) : string :=
  s +:+ "-" +:+ pretty n.

(** A ledger in which the slug [s] has been given out [j] times after the
    first: its count is [j], and every key is [s] or one of its first [j]
    candidates. *)
Definition counted (s : string) (j : nat) (occ : gmap string nat) : Prop :=
  occ !! s = Some j
  ∧ ∀ x, is_Some (occ !! x) → x = s ∨ ∃ i, 1 ≤ i ≤ j ∧ x = suffixed s i.

(** Following the parent map upward from the object at [a]: the parents
    met, nearest first, in at most [fuel] steps. *)
Fixpoint ancestors_of (m : gmap nat XastNode) (fuel : nat) (a : nat)
    : list XastNode :=
  match fuel with
  | O => []
  | S fuel' =>
      match m !! a with
      | Some p => p :: ancestors_of m fuel' (node_id p)
      | None => []
      end
  end.

(** A pass over the tree as a batch of writes [map.set(key, value)], applied
    in order. *)
Definition apply_writes {V : Type} (m : gmap nat V) (ws : list (nat * V))
    : gmap nat V :=
  foldl (λ m w, <[w.1 := w.2]> m) m ws.

(** The writes of [_generateParentMap]: one for each visit that has a
    parent. *)
Definition parent_writes (l : list (XastNode * list XastNode))
    : list (nat * XastNode) :=
  omap (λ x, match x.2 with
             | parent :: _ => Some (node_id x.1, parent)
             | [] => None
             end) l.

(** The writes of [_generateNodeToDivisionIdMap]: one for each visit of a
    node that is, or lies below, a recorded division. *)
Definition division_writes (st : PretextState)
    (l : list (XastNode * list XastNode)) : list (nat * string) :=
  omap (λ x, (λ d, (node_id x.1, attribute_or_empty "xml:id" d))
               <$> nearest_division st x.1 x.2) l.

(** The writes of [_generateBlockToNumberMap] on the visited elements [l],
    when the counter stands at [number]. *)
Fixpoint block_writes (isDivision : XastNode → bool)
    (NUMBERED_BLOCKS : gset string) (number : nat) (l : list XastNode)
    : list (nat * nat) :=
  match l with
  | [] => []
  | node :: l' =>
      let number := if isDivision node then 0 else number in
      if is_numbered_block NUMBERED_BLOCKS node
      then (node_id node, number)
           :: block_writes isDivision NUMBERED_BLOCKS (S number) l'
      else block_writes isDivision NUMBERED_BLOCKS number l'
  end.

(** * Properties *)

(** ** The tree and the walker *)

(** Induction over a node with the property available for its children. *)
Lemma XastContent_children_ind (P : XastContent → Prop) :
  (∀ c, Forall P (content_children c) → P c) → ∀ c, P c.
Proof.
  intros HP. fix IH 1. intros c. apply HP.
  destruct c as [a nm attrs cs| | | | |]; simpl; try constructor.
  induction cs as [|c cs IHcs]; constructor; [apply IH | apply IHcs].
Qed.

Lemma walk_unfold ps c :
  walk ps c = (NodeContent c, ps) :: (content_children c ≫= walk (NodeContent c :: ps)).
Proof. destruct c; reflexivity. Qed.

Lemma content_ids_unfold c :
  content_ids c = content_id c :: (content_children c ≫= content_ids).
Proof. destruct c; reflexivity. Qed.

Lemma preorder_content_unfold c :
  preorder_content c = NodeContent c :: (content_children c ≫= preorder_content).
Proof. destruct c; reflexivity. Qed.

Lemma bind_ext_Forall {A B} (f g : A → list B) (l : list A) :
  Forall (λ x, f x = g x) l → l ≫= f = l ≫= g.
Proof.
  induction 1 as [|x l Hx _ IH]; [reflexivity|].
  rewrite !bind_cons. by rewrite Hx, IH.
Qed.

Lemma fmap_bind_list {A B C} (h : B → C) (f : A → list B) (l : list A) :
  h <$> (l ≫= f) = l ≫= (λ x, h <$> f x).
Proof.
  induction l as [|x l IH]; [reflexivity|].
  rewrite !bind_cons, fmap_app. by rewrite IH.
Qed.

(** The walker visits the nodes in document order. *)
Lemma walk_preorder ps c : (walk ps c).*1 = preorder_content c.
Proof.
  revert ps. induction c as [c IH] using XastContent_children_ind. intros ps.
  rewrite walk_unfold, preorder_content_unfold. simpl. f_equal.
  rewrite fmap_bind_list. apply bind_ext_Forall.
  eapply Forall_impl; [exact IH|]. intros c' Hc'. apply Hc'.
Qed.

Lemma traversal_preorder r : (traversal r).*1 = preorder r.
Proof.
  unfold traversal, preorder. simpl. f_equal.
  rewrite fmap_bind_list. apply bind_ext_Forall, Forall_forall.
  intros c _. apply walk_preorder.
Qed.

Lemma preorder_content_ids c : node_id <$> preorder_content c = content_ids c.
Proof.
  induction c as [c IH] using XastContent_children_ind.
  rewrite preorder_content_unfold, content_ids_unfold. simpl. f_equal.
  rewrite fmap_bind_list. by apply bind_ext_Forall.
Qed.

Lemma preorder_ids r : node_id <$> preorder r = tree_ids r.
Proof.
  unfold preorder, tree_ids. simpl. f_equal.
  rewrite fmap_bind_list. apply bind_ext_Forall, Forall_forall.
  intros c _. apply preorder_content_ids.
Qed.

Lemma descends_trans a pa b pb n ps :
  descends a pa b pb → descends b pb n ps → descends a pa n ps.
Proof.
  intros Hab Hbn. induction Hbn as [|p qs c _ IH Hc]; [exact Hab|].
  by eapply descends_child.
Qed.

Lemma walk_descends ps c n qs :
  (n, qs) ∈ walk ps c → descends (NodeContent c) ps n qs.
Proof.
  revert ps. induction c as [c IH] using XastContent_children_ind. intros ps.
  rewrite walk_unfold. intros [Heq|Hin]%elem_of_cons.
  - injection Heq as -> ->. constructor.
  - apply list_elem_of_bind in Hin as (c' & Hin & Hc').
    rewrite Forall_forall in IH.
    eapply descends_trans; [|by apply (IH c' Hc')].
    eapply descends_child; [constructor | exact Hc'].
Qed.

Lemma walk_child ps c p qs c' :
  (p, qs) ∈ walk ps c → c' ∈ node_children p →
  (NodeContent c', p :: qs) ∈ walk ps c.
Proof.
  revert ps. induction c as [c IH] using XastContent_children_ind. intros ps.
  rewrite walk_unfold. intros [Heq|Hin]%elem_of_cons Hc'.
  - injection Heq as -> ->. simpl in Hc'. right.
    apply list_elem_of_bind. exists c'. split; [|exact Hc'].
    rewrite walk_unfold. left.
  - right. apply list_elem_of_bind in Hin as (c'' & Hin & Hc'').
    rewrite Forall_forall in IH.
    apply list_elem_of_bind. exists c''. split; [|exact Hc''].
    by apply (IH c'' Hc'').
Qed.

(** The walker reaches exactly the nodes of the tree, each with its chain
    of ancestors. *)
Lemma traversal_in_tree r n ps : (n, ps) ∈ traversal r ↔ in_tree r n ps.
Proof.
  unfold in_tree, traversal. split.
  - intros [Heq|Hin]%elem_of_cons.
    + injection Heq as -> ->. constructor.
    + apply list_elem_of_bind in Hin as (c & Hin & Hc).
      eapply descends_trans; [|by apply walk_descends].
      eapply descends_child; [constructor | exact Hc].
  - induction 1 as [|p qs c _ IH Hc]; [left|].
    apply elem_of_cons in IH as [Heq|Hin].
    + injection Heq as -> ->. right. apply list_elem_of_bind.
      exists c. split; [|exact Hc]. rewrite walk_unfold. left.
    + right. apply list_elem_of_bind in Hin as (c' & Hin & Hc').
      apply list_elem_of_bind. exists c'. split; [|exact Hc'].
      by apply walk_child.
Qed.

(** ** Folding a visitor that writes one key per node *)

Section fold_keys.
Context {S X V : Type} (get : S → gmap nat V) (f : S → X → S) (key : X → nat).
Hypothesis frame : ∀ s x k, k ≠ key x → get (f s x) !! k = get s !! k.

(** A key none of the visited nodes has keeps its entry. *)
Lemma foldl_lookup_frame l s k :
  k ∉ (key <$> l) → get (foldl f s l) !! k = get s !! k.
Proof.
  revert s. induction l as [|x l IH]; intros s Hk; [reflexivity|].
  simpl in *. apply not_elem_of_cons in Hk as [Hne Hk].
  rewrite IH by exact Hk. by apply frame.
Qed.

(** The entry of a node that is visited once is the one its visit wrote. *)
Lemma foldl_lookup_at l1 x l2 s :
  key x ∉ (key <$> l2) →
  get (foldl f s (l1 ++ x :: l2)) !! key x = get (f (foldl f s l1) x) !! key x.
Proof.
  intros Hk. rewrite foldl_app. simpl. by apply foldl_lookup_frame.
Qed.
End fold_keys.

Lemma filter_all {A} (l : list A) : List.filter (λ _, true) l = l.
Proof. induction l as [|x l IH]; simpl; by rewrite ?IH. Qed.

Lemma traversal_ids r : (node_id ∘ fst) <$> traversal r = tree_ids r.
Proof. by rewrite list_fmap_compose, traversal_preorder, preorder_ids. Qed.

(** A node of a tree splits the traversal, and no other visit has its
    address. *)
Lemma traversal_split r n ps :
  NoDup (tree_ids r) → in_tree r n ps →
  ∃ l1 l2, traversal r = l1 ++ (n, ps) :: l2
    ∧ (node_id n ∉ (node_id ∘ fst) <$> l1)
    ∧ (node_id n ∉ (node_id ∘ fst) <$> l2).
Proof.
  intros Hnd Hin. apply traversal_in_tree, list_elem_of_split in Hin.
  destruct Hin as (l1 & l2 & Heq). exists l1, l2. split; [exact Heq|].
  rewrite <- traversal_ids, Heq, fmap_app, fmap_cons in Hnd.
  apply NoDup_app in Hnd as (_ & Hdisj & Hnd2).
  apply NoDup_cons in Hnd2 as [Hn2 _]. split; [|exact Hn2].
  intros Hn1. apply (Hdisj _ Hn1). left.
Qed.

(** ** The parent map *)

Lemma _generateParentMap_fold st :
  _generateParentMap st = foldl parent_visitor st (traversal (root st)).
Proof. unfold _generateParentMap, visit. by rewrite filter_all. Qed.

Lemma parent_visitor_frame st x k :
  k ≠ (node_id ∘ fst) x →
  _parentMap (parent_visitor st x) !! k = _parentMap st !! k.
Proof.
  intros Hk. unfold parent_visitor. destruct (x.2); [reflexivity|].
  simpl. by rewrite lookup_insert_ne.
Qed.

(** After the pass over the tree [r], a node of [r] with an ancestor is
    mapped to the nearest one. *)
Lemma _generateParentMap_child r st n p ps :
  NoDup (tree_ids r) → in_tree r n (p :: ps) →
  _parentMap (_generateParentMap (set_root r st)) !! node_id n = Some p.
Proof.
  intros Hnd Hin. rewrite _generateParentMap_fold.
  change (root (set_root r st)) with r.
  destruct (traversal_split r n (p :: ps) Hnd Hin) as (l1 & l2 & -> & _ & Hn2).
  rewrite (foldl_lookup_at _parentMap parent_visitor (node_id ∘ fst)
             parent_visitor_frame l1 (n, p :: ps) l2 _ Hn2).
  unfold parent_visitor. simpl. apply lookup_insert_eq.
Qed.

(** The pass writes no entry for an address outside the tree, nor for the
    root. *)
Lemma _generateParentMap_other r st k :
  k ∉ (root_children r ≫= content_ids) →
  _parentMap (_generateParentMap (set_root r st)) !! k = _parentMap st !! k.
Proof.
  intros Hk. rewrite _generateParentMap_fold.
  change (root (set_root r st)) with r. unfold traversal. simpl.
  rewrite (foldl_lookup_frame _parentMap parent_visitor (node_id ∘ fst)
             parent_visitor_frame); [reflexivity|].
  pose proof (traversal_ids r) as Hids. unfold traversal, tree_ids in Hids.
  rewrite fmap_cons in Hids. injection Hids as Hids. by rewrite Hids.
Qed.

(** ** [setRoot] *)

Section setRoot.

Variable _generateToc : PretextState → PretextState.
Variable _generateRefalbeInfoMap : PretextState → PretextState.

(** Modelled from the spec: the two passes are not part of the sources.
    Section 2: the parent index is "built once via one Tree Walker pass";
    the passes that follow read it and do not write it. *)
Hypothesis toc_parentMap :
  ∀ st, _parentMap (_generateToc st) = _parentMap st.
Hypothesis refs_parentMap :
  ∀ st, _parentMap (_generateRefalbeInfoMap st) = _parentMap st.

Lemma setRoot_parentMap r st :
  _parentMap (setRoot _generateToc _generateRefalbeInfoMap r st)
  = _parentMap (_generateParentMap (set_root r st)).
Proof. unfold setRoot. by rewrite refs_parentMap, toc_parentMap. Qed.

Lemma in_tree_id r n ps : in_tree r n ps → node_id n ∈ tree_ids r.
Proof.
  intros Hin%traversal_in_tree. rewrite <- traversal_ids.
  by apply (list_elem_of_fmap_2 (node_id ∘ fst)) in Hin.
Qed.

(** C4: after [setRoot(r)] the parent map sends every child of a node of
    the tree [r] to that node, its immediate parent, and it has no entry for
    the root.  The tree holds no object twice, and, as at construction, the
    map held no entry for the root object before. *)
Theorem setRoot_parent_index r st :
  NoDup (tree_ids r) →
  _parentMap st !! root_id r = None →
  (∀ p ps c, in_tree r p ps → c ∈ node_children p →
     _parentMap (setRoot _generateToc _generateRefalbeInfoMap r st)
       !! content_id c = Some p)
  ∧ _parentMap (setRoot _generateToc _generateRefalbeInfoMap r st)
      !! root_id r = None.
Proof.
  intros Hnd Hroot. rewrite setRoot_parentMap. split.
  - intros p ps c Hp Hc.
    apply (_generateParentMap_child r st (NodeContent c) p ps Hnd).
    by eapply descends_child.
  - rewrite _generateParentMap_other; [exact Hroot|].
    unfold tree_ids in Hnd. by apply NoDup_cons in Hnd as [? _].
Qed.

(** C5, as the code has it: every index is empty at construction, and
    [setRoot] writes into the parent map without clearing it.  After
    [setRoot(r1)] and [setRoot(r2)] on trees that share no object, the
    children of the nodes of [r2] are mapped to their parents, and those of
    [r1] still are. *)
Theorem setRoot_keeps_parent_entries r1 r2 fresh :
  NoDup (tree_ids r1 ++ tree_ids r2) →
  let st0 := constructor fresh in
  let st2 :=
    setRoot _generateToc _generateRefalbeInfoMap r2
      (setRoot _generateToc _generateRefalbeInfoMap r1 st0) in
  (_parentMap st0 = ∅ ∧ _xastNodeToTocDivisionId st0 = ∅
   ∧ _xastBlockToNumber st0 = ∅ ∧ _xastDivisions st0 = ∅
   ∧ _tocInfoMap st0 = ∅ ∧ _xrefableMap st0 = ∅ ∧ toc st0 = [])
  ∧ (∀ p ps c, in_tree r2 p ps → c ∈ node_children p →
       _parentMap st2 !! content_id c = Some p)
  ∧ (∀ p ps c, in_tree r1 p ps → c ∈ node_children p →
       _parentMap st2 !! content_id c = Some p).
Proof.
  intros Hnd st0 st2. apply NoDup_app in Hnd as (Hnd1 & Hdisj & Hnd2).
  split; [by repeat split|]. subst st2. rewrite setRoot_parentMap. split.
  - intros p ps c Hp Hc.
    apply (_generateParentMap_child r2 _ (NodeContent c) p ps Hnd2).
    by eapply descends_child.
  - intros p ps c Hp Hc.
    assert (in_tree r1 (NodeContent c) (p :: ps)) as Hin
      by (by eapply descends_child).
    rewrite _generateParentMap_other.
    + rewrite setRoot_parentMap.
      by apply (_generateParentMap_child r1 _ (NodeContent c) p ps Hnd1).
    + intros Hc2. apply (Hdisj (content_id c)).
      * apply (in_tree_id r1 _ _ Hin).
      * unfold tree_ids. by right.
Qed.

End setRoot.

(** ** Block numbers *)

Section block_numbers.

Variable isDivision : XastNode → bool.
Variable NUMBERED_BLOCKS : gset string.

Lemma since_last_division_snoc l x :
  since_last_division isDivision (l ++ [x])
  = if isDivision x then [x] else since_last_division isDivision l ++ [x].
Proof.
  induction l as [|n l IH]; simpl.
  - by destruct (isDivision x).
  - rewrite existsb_app. simpl. rewrite orb_false_r, IH.
    destruct (isDivision x).
    + by rewrite orb_true_r.
    + rewrite orb_false_r. by destruct (existsb isDivision l).
Qed.

Lemma filter_fst {A B} (test : A → bool) (l : list (A * B)) :
  (List.filter (λ x, test x.1) l).*1 = List.filter test (l.*1).
Proof.
  induction l as [|x l IH]; [reflexivity|].
  rewrite fmap_cons. cbn [List.filter]. destruct (test x.1).
  - rewrite fmap_cons. by f_equal.
  - exact IH.
Qed.

Lemma _generateBlockToNumberMap_fold st :
  _generateBlockToNumberMap isDivision NUMBERED_BLOCKS st
  = (foldl (number_step isDivision NUMBERED_BLOCKS) (st, 0)
       (List.filter isElement (preorder (root st)))).1.
Proof.
  unfold _generateBlockToNumberMap, visit.
  rewrite <- traversal_preorder.
  rewrite <- (filter_fst isElement (traversal (root st))).
  by rewrite foldl_fmap.
Qed.

(** The counter after a run of visits: the numbered blocks since the most
    recent division. *)
Lemma number_step_counter st l :
  (foldl (number_step isDivision NUMBERED_BLOCKS) (st, 0) l).2
  = length (List.filter (is_numbered_block NUMBERED_BLOCKS)
              (since_last_division isDivision l)).
Proof.
  induction l as [|x l IH] using rev_ind; [reflexivity|].
  rewrite foldl_snoc, since_last_division_snoc.
  destruct (foldl (number_step isDivision NUMBERED_BLOCKS) (st, 0) l)
    as [st' k]. simpl in IH. subst k.
  unfold number_step, number_block.
  destruct (isDivision x); simpl.
  - by destruct (is_numbered_block NUMBERED_BLOCKS x).
  - rewrite List.filter_app, length_app. simpl.
    destruct (is_numbered_block NUMBERED_BLOCKS x); simpl; lia.
Qed.

Lemma number_step_frame s x k :
  k ≠ node_id x →
  _xastBlockToNumber (number_step isDivision NUMBERED_BLOCKS s x).1 !! k
  = _xastBlockToNumber s.1 !! k.
Proof.
  intros Hk. destruct s as [st n]. unfold number_step, number_block.
  destruct (is_numbered_block NUMBERED_BLOCKS x); simpl; [|reflexivity].
  by rewrite lookup_insert_ne.
Qed.

Lemma elem_of_fmap_filter {A B} (f : A → B) (test : A → bool) l y :
  y ∈ f <$> List.filter test l → y ∈ f <$> l.
Proof.
  induction l as [|x l IH]; simpl; [done|].
  destruct (test x); simpl; rewrite ?elem_of_cons; tauto.
Qed.

Lemma NoDup_fmap_filter {A B} (f : A → B) (test : A → bool) l :
  NoDup (f <$> l) → NoDup (f <$> List.filter test l).
Proof.
  induction l as [|x l IH]; simpl; [done|].
  intros [Hx Hl]%NoDup_cons. destruct (test x); simpl; [|by apply IH].
  apply NoDup_cons. split; [|by apply IH].
  intros Hin. by apply Hx, (elem_of_fmap_filter f test).
Qed.

(** The number of a block is the count of the numbered blocks visited since
    the most recent division. *)
Lemma block_number_general st pre b post :
  NoDup (tree_ids (root st)) →
  List.filter isElement (preorder (root st)) = pre ++ b :: post →
  is_numbered_block NUMBERED_BLOCKS b = true →
  _xastBlockToNumber (_generateBlockToNumberMap isDivision NUMBERED_BLOCKS st)
    !! node_id b
  = Some (blocks_since_division isDivision NUMBERED_BLOCKS pre b).
Proof.
  intros Hnd Hsplit Hb. rewrite _generateBlockToNumberMap_fold, Hsplit.
  assert (node_id b ∉ node_id <$> post) as Hpost.
  { rewrite <- preorder_ids in Hnd.
    apply (NoDup_fmap_filter node_id isElement) in Hnd.
    rewrite Hsplit, fmap_app, fmap_cons in Hnd.
    apply NoDup_app in Hnd as (_ & _ & Hnd). by apply NoDup_cons in Hnd as [? _]. }
  rewrite (foldl_lookup_at (λ s, _xastBlockToNumber s.1)
             (number_step isDivision NUMBERED_BLOCKS) node_id
             number_step_frame pre b post _ Hpost).
  pose proof (number_step_counter st pre) as Hk.
  destruct (foldl (number_step isDivision NUMBERED_BLOCKS) (st, 0) pre)
    as [st' k]. simpl in Hk.
  unfold number_step at 1, number_block. rewrite Hb. simpl.
  rewrite lookup_insert_eq. f_equal.
  unfold blocks_since_division. rewrite since_last_division_snoc.
  destruct (isDivision b); [reflexivity|].
  by rewrite removelast_last.
Qed.

Lemma since_last_division_from l1 d l2 :
  isDivision d = true → existsb isDivision l2 = false →
  since_last_division isDivision (l1 ++ d :: l2) = d :: l2.
Proof.
  intros Hd Hl2. induction l1 as [|x l1 IH]; simpl.
  - by rewrite Hl2.
  - rewrite existsb_app. simpl. rewrite Hd. simpl. by rewrite orb_true_r.
Qed.

(** The first numbered block after a division gets 0, whatever was counted
    before the division. *)
Lemma block_number_restart st pre d mid b post :
  NoDup (tree_ids (root st)) →
  List.filter isElement (preorder (root st)) = pre ++ d :: mid ++ b :: post →
  isDivision d = true →
  is_numbered_block NUMBERED_BLOCKS d = false →
  (∀ x, x ∈ mid →
     isDivision x = false ∧ is_numbered_block NUMBERED_BLOCKS x = false) →
  is_numbered_block NUMBERED_BLOCKS b = true →
  _xastBlockToNumber (_generateBlockToNumberMap isDivision NUMBERED_BLOCKS st)
    !! node_id b
  = Some 0.
Proof.
  intros Hnd Hsplit Hd Hdn Hmid Hb.
  rewrite (block_number_general st (pre ++ d :: mid) b post Hnd);
    [|by rewrite <- app_assoc|exact Hb].
  f_equal. unfold blocks_since_division. rewrite since_last_division_snoc.
  destruct (isDivision b); [reflexivity|]. rewrite removelast_last.
  rewrite since_last_division_from; [|exact Hd|].
  - simpl. rewrite Hdn. clear Hsplit.
    induction mid as [|x mid IH]; [reflexivity|]. simpl.
    destruct (Hmid x) as [_ ->]; [by left|].
    apply IH. intros y Hy. apply Hmid. by right.
  - clear Hsplit. induction mid as [|x mid IH]; [reflexivity|]. simpl.
    destruct (Hmid x) as [-> _]; [by left|].
    apply IH. intros y Hy. apply Hmid. by right.
Qed.

End block_numbers.

Section numbering_scenario.

Variable isDivision : XastNode → bool.
Variable NUMBERED_BLOCKS : gset string.

Lemma is_numbered_block_element a nm attrs cs :
  is_numbered_block NUMBERED_BLOCKS (NodeContent (XastElement a nm attrs cs))
  = bool_decide (nm ∈ NUMBERED_BLOCKS).
Proof. reflexivity. Qed.

Lemma scenario_elements :
  List.filter isElement (preorder scenario_root)
  = [NodeContent chapter_c1; NodeContent outer_definition;
     NodeContent theorem_node; NodeContent section_s1;
     NodeContent inner_definition].
Proof. reflexivity. Qed.

Lemma scenario_NoDup : NoDup (tree_ids scenario_root).
Proof. compute_done. Qed.

(** C3: [_generateBlockToNumberMap] gives every numbered block the count,
    from 0, of the numbered blocks visited in document order since the most
    recent division (a division that is itself a numbered block gets 0 and is
    counted); the count restarts at every division: the first numbered block
    after a division gets 0.  In the document
    [root > chapter#c1 > (definition, theorem, section#s1 > definition)],
    where [definition] and [theorem] are numbered blocks and not divisions
    and [chapter] and [section] are not numbered blocks, the outer
    definition gets 0, the theorem 1, and the inner definition gets 0 exactly
    when [section] is a division. *)
Theorem block_numbering :
  (∀ st pre b post,
     NoDup (tree_ids (root st)) →
     List.filter isElement (preorder (root st)) = pre ++ b :: post →
     is_numbered_block NUMBERED_BLOCKS b = true →
     _xastBlockToNumber
       (_generateBlockToNumberMap isDivision NUMBERED_BLOCKS st) !! node_id b
     = Some (blocks_since_division isDivision NUMBERED_BLOCKS pre b))
  ∧ (∀ st pre d mid b post,
       NoDup (tree_ids (root st)) →
       List.filter isElement (preorder (root st))
       = pre ++ d :: mid ++ b :: post →
       isDivision d = true →
       is_numbered_block NUMBERED_BLOCKS d = false →
       (∀ x, x ∈ mid →
          isDivision x = false
          ∧ is_numbered_block NUMBERED_BLOCKS x = false) →
       is_numbered_block NUMBERED_BLOCKS b = true →
       _xastBlockToNumber
         (_generateBlockToNumberMap isDivision NUMBERED_BLOCKS st)
         !! node_id b
       = Some 0)
  ∧ (∀ st,
       root st = scenario_root →
       "definition" ∈ NUMBERED_BLOCKS → "theorem" ∈ NUMBERED_BLOCKS →
       "chapter" ∉ NUMBERED_BLOCKS → "section" ∉ NUMBERED_BLOCKS →
       isDivision (NodeContent theorem_node) = false →
       isDivision (NodeContent inner_definition) = false →
       let m :=
         _xastBlockToNumber
           (_generateBlockToNumberMap isDivision NUMBERED_BLOCKS st) in
       m !! content_id outer_definition = Some 0
       ∧ m !! content_id theorem_node = Some 1
       ∧ (m !! content_id inner_definition = Some 0
          ↔ isDivision (NodeContent section_s1) = true)).
Proof.
  split; [apply block_number_general|].
  split; [apply block_number_restart|].
  intros st Hroot Hdef Hthm Hch Hsec Hthm_div Hinner_div m.
  assert (NoDup (tree_ids (root st))) as Hnd
    by (rewrite Hroot; apply scenario_NoDup).
  pose proof scenario_elements as Hel. rewrite <- Hroot in Hel.
  assert (∀ pre b post,
    [NodeContent chapter_c1; NodeContent outer_definition;
     NodeContent theorem_node; NodeContent section_s1;
     NodeContent inner_definition] = pre ++ b :: post →
    is_numbered_block NUMBERED_BLOCKS b = true →
    m !! node_id b
    = Some (blocks_since_division isDivision NUMBERED_BLOCKS pre b)) as Hnum.
  { intros pre b post Hsplit Hb. subst m.
    apply (block_number_general _ _ st pre b post Hnd); [|exact Hb].
    by rewrite Hel. }
  assert (is_numbered_block NUMBERED_BLOCKS (NodeContent chapter_c1) = false)
    as Hn1 by (by apply bool_decide_eq_false_2).
  assert (is_numbered_block NUMBERED_BLOCKS (NodeContent outer_definition)
          = true) as Hn2 by (by apply bool_decide_eq_true_2).
  assert (is_numbered_block NUMBERED_BLOCKS (NodeContent theorem_node) = true)
    as Hn3 by (by apply bool_decide_eq_true_2).
  assert (is_numbered_block NUMBERED_BLOCKS (NodeContent section_s1) = false)
    as Hn4 by (by apply bool_decide_eq_false_2).
  assert (is_numbered_block NUMBERED_BLOCKS (NodeContent inner_definition)
          = true) as Hn5 by (by apply bool_decide_eq_true_2).
  change (content_id outer_definition)
    with (node_id (NodeContent outer_definition)).
  change (content_id theorem_node) with (node_id (NodeContent theorem_node)).
  change (content_id inner_definition)
    with (node_id (NodeContent inner_definition)).
  split; [|split].
  - rewrite (Hnum [NodeContent chapter_c1] (NodeContent outer_definition)
               [NodeContent theorem_node; NodeContent section_s1;
                NodeContent inner_definition] eq_refl Hn2).
    f_equal. unfold blocks_since_division. rewrite since_last_division_snoc.
    destruct (isDivision (NodeContent outer_definition)); [reflexivity|].
    rewrite removelast_last. simpl. by rewrite Hn1.
  - rewrite (Hnum [NodeContent chapter_c1; NodeContent outer_definition]
               (NodeContent theorem_node)
               [NodeContent section_s1; NodeContent inner_definition]
               eq_refl Hn3).
    f_equal. unfold blocks_since_division.
    rewrite since_last_division_snoc, Hthm_div, removelast_last.
    simpl. rewrite orb_false_r.
    destruct (isDivision (NodeContent outer_definition)); simpl.
    + by rewrite Hn2.
    + by rewrite Hn1, Hn2.
  - rewrite (Hnum [NodeContent chapter_c1; NodeContent outer_definition;
                   NodeContent theorem_node; NodeContent section_s1]
               (NodeContent inner_definition) [] eq_refl Hn5).
    unfold blocks_since_division.
    rewrite since_last_division_snoc, Hinner_div, removelast_last.
    simpl. rewrite Hthm_div, orb_false_r. simpl.
    destruct (isDivision (NodeContent section_s1)); simpl.
    + rewrite !orb_true_r. simpl. rewrite Hn4. split; reflexivity.
    + rewrite !orb_false_r.
      destruct (isDivision (NodeContent outer_definition)); simpl;
        rewrite ?Hn1, ?Hn2, ?Hn3, ?Hn4; simpl; split; congruence.
Qed.

End numbering_scenario.

(** ** Division membership *)

Lemma _generateNodeToDivisionIdMap_fold st :
  _generateNodeToDivisionIdMap st
  = foldl division_visitor st (traversal (root st)).
Proof. unfold _generateNodeToDivisionIdMap, visit. by rewrite filter_all. Qed.

(** The loop over the parents stops at the first recorded division. *)
Lemma division_parent_loop_find node ps st :
  division_parent_loop node ps st
  = match List.find (is_recorded_division st) ps with
    | Some d =>
        set_xastNodeToTocDivisionId
          (<[node_id node := attribute_or_empty "xml:id" d]>
             (_xastNodeToTocDivisionId st)) st
    | None => st
    end.
Proof.
  induction ps as [|p ps IH]; simpl; [reflexivity|].
  by destruct (is_recorded_division st p).
Qed.

(** One visit, in terms of the division the node belongs to. *)
Lemma division_visitor_nearest st x :
  division_visitor st x
  = match nearest_division st x.1 x.2 with
    | Some d =>
        set_xastNodeToTocDivisionId
          (<[node_id x.1 := attribute_or_empty "xml:id" d]>
             (_xastNodeToTocDivisionId st)) st
    | None => st
    end.
Proof.
  unfold division_visitor, nearest_division.
  destruct (is_recorded_division st x.1); [reflexivity|].
  apply division_parent_loop_find.
Qed.

Lemma division_visitor_divisions st x :
  _xastDivisions (division_visitor st x) = _xastDivisions st.
Proof.
  rewrite division_visitor_nearest. by destruct (nearest_division st x.1 x.2).
Qed.

Lemma division_fold_divisions l st :
  _xastDivisions (foldl division_visitor st l) = _xastDivisions st.
Proof.
  revert st. induction l as [|x l IH]; intros st; [reflexivity|].
  simpl. by rewrite IH, division_visitor_divisions.
Qed.

Lemma division_visitor_frame st x k :
  k ≠ (node_id ∘ fst) x →
  _xastNodeToTocDivisionId (division_visitor st x) !! k
  = _xastNodeToTocDivisionId st !! k.
Proof.
  intros Hk. rewrite division_visitor_nearest.
  destruct (nearest_division st x.1 x.2); [|reflexivity].
  simpl. by rewrite lookup_insert_ne.
Qed.

Lemma nearest_division_divisions st st' n ps :
  _xastDivisions st' = _xastDivisions st →
  nearest_division st' n ps = nearest_division st n ps.
Proof.
  intros Heq. unfold nearest_division, is_recorded_division. by rewrite Heq.
Qed.

(** What the pass leaves under the address of a node of the tree. *)
Lemma _generateNodeToDivisionIdMap_lookup st n ps :
  NoDup (tree_ids (root st)) → in_tree (root st) n ps →
  _xastNodeToTocDivisionId (_generateNodeToDivisionIdMap st) !! node_id n
  = match nearest_division st n ps with
    | Some d => Some (attribute_or_empty "xml:id" d)
    | None => _xastNodeToTocDivisionId st !! node_id n
    end.
Proof.
  intros Hnd Hin. rewrite _generateNodeToDivisionIdMap_fold.
  destruct (traversal_split _ n ps Hnd Hin) as (l1 & l2 & -> & Hn1 & Hn2).
  rewrite (foldl_lookup_at _xastNodeToTocDivisionId division_visitor
             (node_id ∘ fst) division_visitor_frame l1 (n, ps) l2 _ Hn2).
  rewrite division_visitor_nearest. simpl.
  rewrite (nearest_division_divisions st _ n ps (division_fold_divisions l1 st)).
  destruct (nearest_division st n ps) as [d|]; simpl.
  - apply lookup_insert_eq.
  - by apply (foldl_lookup_frame _xastNodeToTocDivisionId division_visitor
                (node_id ∘ fst) division_visitor_frame).
Qed.

(** C6: [_generateNodeToDivisionIdMap] maps a node that is recorded as a
    division to its own identifier, whatever its ancestors are; it maps any
    other node to the identifier of the first recorded division on its chain
    of ancestors, nearest first; and it leaves the entry of a node with no
    such ancestor as it was, so the node is unmapped when it was before, as
    at construction. *)
Theorem division_membership st n ps :
  NoDup (tree_ids (root st)) →
  in_tree (root st) n ps →
  let m' := _xastNodeToTocDivisionId (_generateNodeToDivisionIdMap st) in
  (is_recorded_division st n = true →
     m' !! node_id n = Some (attribute_or_empty "xml:id" n))
  ∧ (is_recorded_division st n = false →
     ∀ d, List.find (is_recorded_division st) ps = Some d →
       m' !! node_id n = Some (attribute_or_empty "xml:id" d))
  ∧ (is_recorded_division st n = false →
     List.find (is_recorded_division st) ps = None →
     m' !! node_id n = _xastNodeToTocDivisionId st !! node_id n
     ∧ (_xastNodeToTocDivisionId st !! node_id n = None →
        m' !! node_id n = None)).
Proof.
  intros Hnd Hin m'. subst m'.
  rewrite (_generateNodeToDivisionIdMap_lookup st n ps Hnd Hin).
  unfold nearest_division. split; [|split].
  - by intros ->.
  - intros -> d Hd. by rewrite Hd.
  - intros -> Hnone. rewrite Hnone. by split.
Qed.

(** ** The queries *)

Lemma _generateNodeToDivisionIdMap_tocInfoMap st :
  _tocInfoMap (_generateNodeToDivisionIdMap st) = _tocInfoMap st.
Proof.
  rewrite _generateNodeToDivisionIdMap_fold.
  generalize (traversal (root st)). intros l. revert st.
  induction l as [|x l IH]; intros st; [reflexivity|].
  simpl. rewrite IH, division_visitor_nearest.
  by destruct (nearest_division st x.1 x.2).
Qed.

Lemma _generateNodeToDivisionIdMap_blocks st :
  _xastBlockToNumber (_generateNodeToDivisionIdMap st) = _xastBlockToNumber st.
Proof.
  rewrite _generateNodeToDivisionIdMap_fold.
  generalize (traversal (root st)). intros l. revert st.
  induction l as [|x l IH]; intros st; [reflexivity|].
  simpl. rewrite IH, division_visitor_nearest.
  by destruct (nearest_division st x.1 x.2).
Qed.


Lemma attribute_or_empty_default key n :
  attribute_or_empty key n = default "" (node_attribute key n).
Proof. by destruct n as [|[? ? [?|] ?| | | | |]]. Qed.


(** In a tree that holds no object twice, the address tells the node. *)
Lemma NoDup_fmap_eq {A B} (f : A → B) (l : list A) x y :
  NoDup (f <$> l) → x ∈ l → y ∈ l → f x = f y → x = y.
Proof.
  induction l as [|z l IH]; [by intros _ ?%elem_of_nil|].
  rewrite fmap_cons. intros [Hz Hl]%NoDup_cons Hx%elem_of_cons Hy%elem_of_cons Hf.
  destruct Hx as [->|Hx], Hy as [->|Hy].
  - reflexivity.
  - exfalso. apply Hz. rewrite Hf. by apply list_elem_of_fmap_2.
  - exfalso. apply Hz. rewrite <- Hf. by apply list_elem_of_fmap_2.
  - by apply IH.
Qed.

Section block_pass_frame.

Variable isDivision : XastNode → bool.
Variable NUMBERED_BLOCKS : gset string.

Lemma number_step_same st s x :
  same_but_blocks st s.1 →
  same_but_blocks st (number_step isDivision NUMBERED_BLOCKS s x).1.
Proof.
  destruct s as [st' k]. unfold number_step, number_block.
  by destruct (is_numbered_block NUMBERED_BLOCKS x).
Qed.

Lemma _generateBlockToNumberMap_same st :
  same_but_blocks st (_generateBlockToNumberMap isDivision NUMBERED_BLOCKS st).
Proof.
  rewrite _generateBlockToNumberMap_fold.
  generalize (List.filter isElement (preorder (root st))). intros l.
  assert (same_but_blocks st (st, 0).1) as Hs by done.
  revert Hs. generalize (st, 0). induction l as [|x l IH]; intros s Hs.
  - exact Hs.
  - simpl. apply IH. by apply number_step_same.
Qed.

(** A node that is no numbered block gets no number. *)
Lemma number_step_unnumbered l s k :
  (∀ x, x ∈ l → node_id x = k → is_numbered_block NUMBERED_BLOCKS x = false) →
  _xastBlockToNumber (foldl (number_step isDivision NUMBERED_BLOCKS) s l).1 !! k
  = _xastBlockToNumber s.1 !! k.
Proof.
  revert s. induction l as [|x l IH]; intros s Hl; [reflexivity|].
  simpl. rewrite IH by (intros y Hy; apply Hl; by right).
  destruct s as [st n]. unfold number_step, number_block.
  destruct (is_numbered_block NUMBERED_BLOCKS x) eqn:Hx; [|reflexivity].
  simpl. apply lookup_insert_ne. intros Hk.
  rewrite (Hl x) in Hx; [discriminate|by left|exact Hk].
Qed.

Lemma _generateBlockToNumberMap_unnumbered st n ps :
  NoDup (tree_ids (root st)) → in_tree (root st) n ps →
  is_numbered_block NUMBERED_BLOCKS n = false →
  _xastBlockToNumber (_generateBlockToNumberMap isDivision NUMBERED_BLOCKS st)
    !! node_id n
  = _xastBlockToNumber st !! node_id n.
Proof.
  intros Hnd Hin Hn. rewrite _generateBlockToNumberMap_fold.
  rewrite number_step_unnumbered; [reflexivity|].
  intros x Hx Hid. rewrite <- preorder_ids in Hnd.
  assert (x = n) as ->; [|exact Hn].
  apply (NoDup_fmap_eq node_id (preorder (root st)) x n Hnd); [| |exact Hid].
  - apply list_elem_of_In, List.filter_In in Hx as [Hx _].
    by apply list_elem_of_In.
  - apply traversal_in_tree in Hin. rewrite <- traversal_preorder.
    by apply (list_elem_of_fmap_2 fst) in Hin.
Qed.

End block_pass_frame.

Section block_info.

Variable isDivision : XastNode → bool.
Variable NUMBERED_BLOCKS : gset string.
Variable STRING_ID_TO_DISPLAY_NAME : gmap string string.

(** C10: after the block pass and the division pass, [getBlockInfo] of an
    element that is no numbered block, and whose division carries a
    non-empty [xml:id] with an entry in the ToC info map, is present:
    [displayName] and [divisionInfo] are filled in, and [number] is
    [undefined].  The tree holds no object twice, and, as at construction,
    the element had no number before. *)
Theorem getBlockInfo_unnumbered st a nm attrs cs ps d info :
  let n := NodeContent (XastElement a nm attrs cs) in
  NoDup (tree_ids (root st)) →
  in_tree (root st) n ps →
  _xastBlockToNumber st !! a = None →
  nm ∉ NUMBERED_BLOCKS →
  nearest_division st n ps = Some d →
  attribute_or_empty "xml:id" d ≠ "" →
  toc_entry_of st d = Some info →
  getBlockInfo STRING_ID_TO_DISPLAY_NAME
    (_generateNodeToDivisionIdMap
       (_generateBlockToNumberMap isDivision NUMBERED_BLOCKS st))
    a nm attrs cs
  = Some (mkBlockInfo (display_name_or STRING_ID_TO_DISPLAY_NAME nm)
            None info).
Proof.
  intros n Hnd Hin Hfresh Hnm Hd Hid Hinfo.
  pose proof (_generateBlockToNumberMap_same isDivision NUMBERED_BLOCKS st)
    as (Hroot & Hdivs & Htoc & _).
  set (st1 := _generateBlockToNumberMap isDivision NUMBERED_BLOCKS st) in *.
  assert (_xastBlockToNumber st1 !! a = None) as Hnum.
  { subst st1.
    rewrite (_generateBlockToNumberMap_unnumbered _ _ st n ps Hnd Hin).
    - exact Hfresh.
    - by apply bool_decide_eq_false_2. }
  unfold getBlockInfo, getTocItemInfo. fold n.
  rewrite (_generateNodeToDivisionIdMap_lookup st1 n ps)
    by (by rewrite Hroot).
  rewrite (nearest_division_divisions st st1 n ps Hdivs), Hd.
  rewrite bool_decide_eq_false_2 by exact Hid.
  rewrite _generateNodeToDivisionIdMap_tocInfoMap, Htoc.
  unfold toc_entry_of in Hinfo. rewrite Hinfo.
  rewrite _generateNodeToDivisionIdMap_blocks.
  change (node_id n) with a. by rewrite Hnum.
Qed.

(** For a node whose division carries no [xml:id] attribute the division
    pass records the empty string.  [getTocItemInfo] and [getBlockInfo] are
    then absent, and [getDivisionDisplayName] reads the entry the ToC info
    map holds under the empty string.  A node that the map does not know
    gets the same three answers. *)
Lemma unlabelled_division_queries st n ps d :
  NoDup (tree_ids (root st)) →
  in_tree (root st) n ps →
  nearest_division st n ps = Some d →
  node_attribute "xml:id" d = None →
  let st' := _generateNodeToDivisionIdMap st in
  let under_empty :=
    match _tocInfoMap st !! "" with
    | Some tocInfo => STRING_ID_TO_DISPLAY_NAME !! toc_division (item tocInfo)
    | None => None
    end in
  _xastNodeToTocDivisionId st' !! node_id n = Some ""
  ∧ getTocItemInfo st' n = None
  ∧ (∀ a nm attrs cs, n = NodeContent (XastElement a nm attrs cs) →
       getBlockInfo STRING_ID_TO_DISPLAY_NAME st' a nm attrs cs = None)
  ∧ getDivisionDisplayName STRING_ID_TO_DISPLAY_NAME st' n = under_empty
  ∧ (∀ st0 n0,
       _tocInfoMap st0 = _tocInfoMap st →
       _xastNodeToTocDivisionId st0 !! node_id n0 = None →
       getTocItemInfo st0 n0 = None
       ∧ (∀ a nm attrs cs, n0 = NodeContent (XastElement a nm attrs cs) →
            getBlockInfo STRING_ID_TO_DISPLAY_NAME st0 a nm attrs cs = None)
       ∧ getDivisionDisplayName STRING_ID_TO_DISPLAY_NAME st0 n0
         = under_empty).
Proof.
  intros Hnd Hin Hd Hid st' under_empty.
  assert (_xastNodeToTocDivisionId st' !! node_id n = Some "") as Hmap.
  { subst st'. rewrite (_generateNodeToDivisionIdMap_lookup st n ps Hnd Hin).
    by rewrite Hd, attribute_or_empty_default, Hid. }
  assert (getTocItemInfo st' n = None) as Htoc
    by (unfold getTocItemInfo; by rewrite Hmap).
  split; [exact Hmap|]. split; [exact Htoc|]. split.
  { intros a nm attrs cs ->. unfold getBlockInfo. by rewrite Htoc. }
  split.
  { unfold getDivisionDisplayName. rewrite Hmap. simpl. subst st'.
    by rewrite _generateNodeToDivisionIdMap_tocInfoMap. }
  intros st0 n0 Hsame Hnone.
  assert (getTocItemInfo st0 n0 = None) as Htoc0
    by (unfold getTocItemInfo; by rewrite Hnone).
  split; [exact Htoc0|]. split.
  - intros a nm attrs cs ->. unfold getBlockInfo. by rewrite Htoc0.
  - unfold getDivisionDisplayName. rewrite Hnone. simpl. by rewrite Hsame.
Qed.

(** C9, as the code has it: for every node whose division (its nearest
    enclosing division, or the node itself) carries no [xml:id] attribute,
    the division pass records the empty string.  [getTocItemInfo] and
    [getBlockInfo] are then absent for it, and [getDivisionDisplayName]
    looks the empty string up: it returns the display name of the entry the
    ToC info map holds under the empty string, and is absent when there is
    none.  A node of the tree that has no enclosing division, and that the
    map did not know before, gets the same three answers.  The tree holds
    no object twice. *)
Theorem division_without_id st n ps d :
  NoDup (tree_ids (root st)) →
  in_tree (root st) n ps →
  nearest_division st n ps = Some d →
  node_attribute "xml:id" d = None →
  let st' := _generateNodeToDivisionIdMap st in
  let under_empty :=
    match _tocInfoMap st !! "" with
    | Some tocInfo => STRING_ID_TO_DISPLAY_NAME !! toc_division (item tocInfo)
    | None => None
    end in
  _xastNodeToTocDivisionId st' !! node_id n = Some ""
  ∧ getTocItemInfo st' n = None
  ∧ getDivisionDisplayName STRING_ID_TO_DISPLAY_NAME st' n = under_empty
  ∧ (∀ a nm attrs cs, n = NodeContent (XastElement a nm attrs cs) →
       getBlockInfo STRING_ID_TO_DISPLAY_NAME st' a nm attrs cs = None)
  ∧ (∀ n0 ps0,
       in_tree (root st) n0 ps0 →
       nearest_division st n0 ps0 = None →
       _xastNodeToTocDivisionId st !! node_id n0 = None →
       getTocItemInfo st' n0 = None
       ∧ getDivisionDisplayName STRING_ID_TO_DISPLAY_NAME st' n0 = under_empty
       ∧ (∀ a nm attrs cs, n0 = NodeContent (XastElement a nm attrs cs) →
            getBlockInfo STRING_ID_TO_DISPLAY_NAME st' a nm attrs cs = None)).
Proof.
  intros Hnd Hin Hd Hid st' under_empty.
  destruct (unlabelled_division_queries st n ps d Hnd Hin Hd Hid)
    as (Hmap & Htoc & Hblock & Hname & Hother).
  split; [exact Hmap|]. split; [exact Htoc|]. split; [exact Hname|].
  split; [exact Hblock|].
  intros n0 ps0 Hin0 Hd0 Hnone.
  destruct (Hother st' n0) as (Htoc0 & Hblock0 & Hname0);
    [apply _generateNodeToDivisionIdMap_tocInfoMap | |by repeat split].
  subst st'. rewrite (_generateNodeToDivisionIdMap_lookup st n0 ps0 Hnd Hin0).
  by rewrite Hd0.
Qed.

End block_info.

(** C8, as the code has it: [getRefTargetInfo] looks the [ref] attribute of
    the node up in the cross-reference index, and the empty string when the
    node has no [ref] attribute or no attributes at all.  It returns what
    the index holds under that key: it is absent when the index has no such
    key, and for a node without a [ref] it is absent exactly when the index
    holds no entry under the empty string.  The function is total, no case
    raises. *)
Theorem getRefTargetInfo_unresolved st :
  (∀ n, getRefTargetInfo st n
        = _xrefableMap st !! default "" (node_attribute "ref" n))
  ∧ (∀ a nm attrs cs r, attrs !! "ref" = Some r →
     _xrefableMap st !! r = None →
     getRefTargetInfo st (NodeContent (XastElement a nm (Some attrs) cs))
     = None)
  ∧ (∀ a nm attrs cs, attrs !! "ref" = None →
     getRefTargetInfo st (NodeContent (XastElement a nm (Some attrs) cs))
     = _xrefableMap st !! "")
  ∧ (∀ a nm cs,
     getRefTargetInfo st (NodeContent (XastElement a nm None cs))
     = _xrefableMap st !! "").
Proof.
  assert (∀ n, getRefTargetInfo st n
               = _xrefableMap st !! default "" (node_attribute "ref" n))
    as Hkey.
  { intros n. unfold getRefTargetInfo. simpl.
    by rewrite attribute_or_empty_default. }
  split; [exact Hkey|]. split; [|split].
  - intros a nm attrs cs r Hr Hnone. rewrite Hkey. simpl. by rewrite Hr.
  - intros a nm attrs cs Hr. rewrite Hkey. simpl. by rewrite Hr.
  - intros a nm cs. by rewrite Hkey.
Qed.

(** ** The identifier allocator *)

Section allocator.

Variable slugger : string → string.

Lemma slug_loop_head fuel occ orig r :
  slug_loop fuel occ orig r = None → is_Some (occ !! r).
Proof. destruct fuel; simpl; destruct (occ !! r); by eauto. Qed.

(** What the loop returns is no key of the ledger, and the loop adds no key
    but [originalSlug]. *)
Lemma slug_loop_Some fuel occ orig r occ' r' :
  slug_loop fuel occ orig r = Some (occ', r') →
  occ' !! r' = None
  ∧ dom occ ⊆ dom occ'
  ∧ dom occ' ⊆ {[orig]} ∪ dom occ
  ∧ (r' = r ∨ (orig ∈ dom occ' ∧ ∃ n : nat, r' = orig +:+ "-" +:+ pretty n)).
Proof.
  revert occ r. induction fuel as [|fuel IH]; intros occ r; simpl.
  - destruct (occ !! r) eqn:Hr; [discriminate|].
    intros [= <- <-]. split; [exact Hr|]. set_solver.
  - destruct (occ !! r) eqn:Hr.
    + intros Hloop. apply IH in Hloop as (Hnone & Hsub & Hsup & Hres).
      rewrite dom_insert_L in Hsub, Hsup. split; [exact Hnone|].
      split; [set_solver|]. split; [set_solver|]. right.
      split; [set_solver|]. destruct Hres as [->|[_ Hres]]; eauto.
    + intros [= <- <-]. split; [exact Hr|]. set_solver.
Qed.

(** When the fuel runs out, the loop has met that many keys. *)
Lemma slug_loop_None fuel occ orig r :
  is_Some (occ !! orig) →
  slug_loop fuel occ orig r = None →
  ∀ j, 1 ≤ j ≤ fuel →
    is_Some (occ !! (orig +:+ "-" +:+ pretty (default 0 (occ !! orig) + j))).
Proof.
  revert occ r. induction fuel as [|fuel IH]; intros occ r Horig Hloop j Hj;
    [lia|].
  simpl in Hloop. destruct (occ !! r); [|discriminate].
  set (k := default 0 (occ !! orig)) in *.
  assert (∀ x, is_Some (<[orig := S k]> occ !! x) → is_Some (occ !! x))
    as Hsame.
  { intros x [->|[_ Hx]]%lookup_insert_is_Some; [exact Horig|exact Hx]. }
  destruct (decide (j = 1)) as [->|Hj1].
  - apply Hsame. replace (k + 1) with (S k) by lia.
    by apply slug_loop_head in Hloop.
  - apply Hsame.
    assert (is_Some (<[orig := S k]> occ !! orig)) as Horig'
      by (rewrite lookup_insert_eq; by eexists).
    pose proof (IH _ _ Horig' Hloop (j - 1)) as Hj'.
    rewrite lookup_insert_eq in Hj'. simpl in Hj'.
    replace (S (k + (j - 1))) with (k + j) in Hj' by lia.
    apply Hj'. lia.
Qed.

Local Instance suffix_inj (orig : string) (k : nat) :
  Inj (=) (=) (λ j : nat, orig +:+ "-" +:+ pretty (k + j)).
Proof.
  intros i j Heq. apply (inj (String.app orig)) in Heq.
  apply (inj (String.app "-")) in Heq. apply (inj pretty) in Heq. lia.
Qed.

(** The fuel of [slug] is enough: the loop ends. *)
Lemma slug_loop_terminates occ orig :
  is_Some (slug_loop (S (size occ)) occ orig orig).
Proof.
  destruct (slug_loop (S (size occ)) occ orig orig) as [p|] eqn:Hloop;
    [by eexists|].
  exfalso. pose proof (slug_loop_head _ _ _ _ Hloop) as Horig.
  pose proof (slug_loop_None _ _ _ _ Horig Hloop) as Hkeys.
  set (k := default 0 (occ !! orig)) in *.
  set (l := (λ j : nat, orig +:+ "-" +:+ pretty (k + j))
              <$> seq 1 (S (size occ))).
  assert (NoDup l) as Hnd by (apply (NoDup_fmap_2 _), NoDup_seq).
  assert (list_to_set l ⊆ dom occ) as Hsub.
  { intros x Hx%elem_of_list_to_set. subst l.
    apply list_elem_of_fmap in Hx as (j & -> & Hj%elem_of_seq).
    apply elem_of_dom, Hkeys. lia. }
  apply subseteq_size in Hsub.
  rewrite size_list_to_set, size_dom in Hsub by exact Hnd.
  subst l. rewrite length_fmap, length_seq in Hsub. lia.
Qed.

(** [slug] always returns, and what it returns was no key of the ledger. *)
Lemma slug_total value occ : is_Some (slug slugger value occ).
Proof.
  unfold slug.
  destruct (slug_loop_terminates occ (slugger value)) as [[occ' r] ->].
  by eexists.
Qed.

Lemma slug_Some value occ r occ' :
  slug slugger value occ = Some (r, occ') →
  occ !! r = None
  ∧ dom occ ⊆ dom occ'
  ∧ r ∈ dom occ'
  ∧ slugger value ∈ dom occ'
  ∧ (r = slugger value
     ∨ ∃ n : nat, r = slugger value +:+ "-" +:+ pretty n).
Proof.
  unfold slug.
  destruct (slug_loop _ occ _ _) as [[occ1 r1]|] eqn:Hloop; [|discriminate].
  intros [= <- <-].
  apply slug_loop_Some in Hloop as (Hnone & Hsub & Hsup & Hres).
  rewrite dom_insert_L. split.
  { apply not_elem_of_dom. apply not_elem_of_dom in Hnone. set_solver. }
  split; [set_solver|]. split; [set_solver|].
  split; [destruct Hres as [->|[? _]]; set_solver|].
  destruct Hres as [->|[_ Hres]]; eauto.
Qed.

Lemma drain_total ids occ : is_Some (drain slugger ids occ).
Proof.
  revert occ. induction ids as [|id ids IH]; intros occ; simpl; [by eexists|].
  destruct (slug_total id occ) as [[r occ'] ->]. apply IH.
Qed.

Lemma drain_Some ids occ occ' :
  drain slugger ids occ = Some occ' →
  dom occ ⊆ dom occ' ∧ ∀ id, id ∈ ids → slugger id ∈ dom occ'.
Proof.
  revert occ. induction ids as [|id ids IH]; intros occ; simpl.
  - intros [= <-]. split; [done|]. by intros id ?%elem_of_nil.
  - destruct (slug slugger id occ) as [[r occ1]|] eqn:Hslug; [|discriminate].
    intros Hdrain. apply IH in Hdrain as [Hsub Hids].
    apply slug_Some in Hslug as (_ & Hsub1 & _ & Hid & _).
    split; [set_solver|].
    intros id' [->|Hin]%elem_of_cons; [set_solver|by apply Hids].
Qed.

Lemma getUniqueId_total preferredName st :
  is_Some (getUniqueId slugger preferredName st).
Proof.
  unfold getUniqueId. case_bool_decide.
  - destruct (drain_total (_declaredIdCache st) (_slugger st)) as [occ ->].
    destruct (slug_total (preferred_or_default preferredName)
                (_slugger (set_declaredIdCache [] (set_slugger occ st))))
      as [[r occ'] ->]. by eexists.
  - destruct (slug_total (preferred_or_default preferredName) (_slugger st))
      as [[r occ'] ->]. by eexists.
Qed.

(** X1: [declareId] twice in a row: the second call finds the id, in the cache
    or in the ledger. *)
Lemma declareId_twice id st :
  (declareId id (declareId id st).2).1 = true.
Proof.
  unfold declareId at 2.
  destruct (bool_decide (id ∈ _declaredIdCache st)
            || match _slugger st !! id with
               | Some n => bool_decide (0 < n)
               | None => false
               end) eqn:Hfirst; simpl.
  - unfold declareId. by rewrite Hfirst.
  - unfold declareId. simpl.
    rewrite (bool_decide_eq_true_2 (id ∈ _declaredIdCache st ++ [id]));
      [reflexivity|]. apply elem_of_app. right. by left.
Qed.

(** X2: [getUniqueId] returns on every state and for every preferred name: the
    slugger's loop ends before its fuel, one round more than the ledger has
    keys, runs out. *)
Lemma getUniqueId_returns preferredName st :
  ∃ id st', getUniqueId slugger preferredName st = Some (id, st').
Proof.
  destruct (getUniqueId_total preferredName st) as [[id st'] Hget].
  by exists id, st'.
Qed.

End allocator.

Section uniqueness.

Variable slugger : string → string.

Lemma declareId_reserved id st G D :
  reserved slugger st G D → reserved slugger (declareId id st).2 G (id :: D).
Proof.
  intros [HG HD]. unfold declareId.
  assert (reserved slugger
            (set_declaredIdCache (_declaredIdCache st ++ [id]) st)
            G (id :: D)) as Hadd.
  { split; [exact HG|]. simpl.
    intros d [->|Hd]%elem_of_cons; [left; set_solver|].
    destruct (HD d Hd) as [?|?]; [left; set_solver|by right]. }
  destruct (decide (id ∈ _declaredIdCache st)) as [Hc|Hc].
  - rewrite (bool_decide_eq_true_2 _ Hc). simpl. split; [exact HG|].
    intros d [->|Hd]%elem_of_cons; [by left|by apply HD].
  - rewrite (bool_decide_eq_false_2 _ Hc). simpl.
    destruct (_slugger st !! id) as [n|] eqn:Hocc; [|exact Hadd].
    destruct (decide (0 < n)) as [Hn|Hn].
    + rewrite (bool_decide_eq_true_2 _ Hn). simpl. split; [exact HG|].
      intros d [->|Hd]%elem_of_cons; [|by apply HD].
      right. right. apply elem_of_dom. by eexists.
    + rewrite (bool_decide_eq_false_2 _ Hn). exact Hadd.
Qed.

(** What [getUniqueId] returns is new: it was not generated before, and it
    is none of the declared ids that the normaliser leaves as they are.  It
    is a slug, or a slug with a hyphen and a number. *)
Lemma getUniqueId_fresh preferredName st G D r st' :
  reserved slugger st G D →
  getUniqueId slugger preferredName st = Some (r, st') →
  (r ∉ G)
  ∧ (∀ d, d ∈ D → slugger d = d → r ≠ d)
  ∧ (∃ v, r = slugger v ∨ ∃ n : nat, r = slugger v +:+ "-" +:+ pretty n)
  ∧ reserved slugger st' (r :: G) D.
Proof.
  intros [HG HD] Hget.
  assert (∃ occ1 occ',
    dom (_slugger st) ⊆ dom occ1
    ∧ (∀ d, d ∈ D → slugger d ∈ dom occ1 ∨ d ∈ dom occ1)
    ∧ slug slugger (preferred_or_default preferredName) occ1 = Some (r, occ')
    ∧ _slugger st' = occ' ∧ _declaredIdCache st' = []) as
    (occ1 & occ' & Hsub & HD1 & Hslug & Hocc' & Hcache').
  { unfold getUniqueId in Hget. case_bool_decide as Hlen.
    - destruct (drain slugger _ _) as [occ1|] eqn:Hdrain; [|discriminate].
      simpl in Hget.
      destruct (slug slugger _ occ1) as [[r' occ']|] eqn:Hslug;
        [|discriminate].
      injection Hget as <- <-. exists occ1, occ'.
      apply drain_Some in Hdrain as [Hsub Hids].
      split; [exact Hsub|]. split; [|done].
      intros d Hd. destruct (HD d Hd) as [?|[?|?]];
        [left; by apply Hids | left; set_solver | right; set_solver].
    - destruct (slug slugger _ (_slugger st)) as [[r' occ']|] eqn:Hslug;
        [|discriminate].
      injection Hget as <- <-. exists (_slugger st), occ'.
      split; [done|]. split.
      + intros d Hd. destruct (HD d Hd) as [Hin|[?|?]]; [|by left|by right].
        destruct (_declaredIdCache st); [by apply elem_of_nil in Hin|].
        simpl in Hlen. lia.
      + split; [exact Hslug|]. split; [reflexivity|]. simpl.
        destruct (_declaredIdCache st); [reflexivity|]. simpl in Hlen. lia. }
  apply slug_Some in Hslug as (Hnew%not_elem_of_dom & Hsub' & Hr & _ & Hshape).
  split; [|split; [|split]].
  - intros Hg. apply Hnew, Hsub, HG, Hg.
  - intros d Hd Hfixed <-.
    destruct (HD1 r Hd) as [Hin|Hin]; [|by apply Hnew].
    rewrite Hfixed in Hin. by apply Hnew.
  - by exists (preferred_or_default preferredName).
  - unfold reserved. rewrite Hocc', Hcache'. split.
    + intros g [->|Hg]%elem_of_cons; [exact Hr|]. apply Hsub', Hsub, HG, Hg.
    + intros d Hd. right. destruct (HD1 d Hd); [left|right]; by apply Hsub'.
Qed.

(** A run of calls from a state in which [G] and [D] are reserved returns,
    and every id it generates is new where it is generated. *)
Lemma run_fresh calls st G D :
  reserved slugger st G D →
  ∃ outs st',
    run slugger calls st = Some (outs, st')
    ∧ length outs = length calls
    ∧ ∀ i r, outs !! i = Some (Generated r) →
        (r ∉ G)
        ∧ (∀ d, d ∈ D → slugger d = d → r ≠ d)
        ∧ (∃ v, r = slugger v ∨ ∃ n : nat, r = slugger v +:+ "-" +:+ pretty n)
        ∧ ∀ j, j < i →
            outs !! j ≠ Some (Generated r)
            ∧ ∀ d, calls !! j = Some (CallDeclareId d) → slugger d = d →
                r ≠ d.
Proof.
  revert st G D. induction calls as [|c calls IH]; intros st G D Hres.
  - exists [], st. split; [reflexivity|]. split; [reflexivity|].
    intros i r Hi. by rewrite lookup_nil in Hi.
  - destruct c as [id|preferredName]; simpl.
    + destruct (declareId id st) as [b st1] eqn:Hdecl.
      pose proof (declareId_reserved id st G D Hres) as Hres1.
      rewrite Hdecl in Hres1. simpl in Hres1.
      destruct (IH st1 G (id :: D) Hres1) as (outs & st' & -> & Hlen & Hout).
      exists (Declared b :: outs), st'. split; [reflexivity|].
      split; [simpl; by rewrite Hlen|].
      intros [|i] r Hi; [discriminate|]. simpl in Hi.
      destruct (Hout i r Hi) as (HG & HD & Hshape & Hbefore).
      split; [exact HG|].
      split; [intros d Hd; apply HD; by right|]. split; [exact Hshape|].
      intros [|j] Hj; simpl.
      * split; [discriminate|]. intros d [= <-]. apply HD. by left.
      * apply Hbefore. lia.
    + destruct (getUniqueId_total slugger preferredName st) as [[r0 st1] Hget].
      rewrite Hget.
      destruct (getUniqueId_fresh _ _ _ _ _ _ Hres Hget)
        as (HG0 & HD0 & Hshape0 & Hres1).
      destruct (IH st1 (r0 :: G) D Hres1) as (outs & st' & -> & Hlen & Hout).
      exists (Generated r0 :: outs), st'. split; [reflexivity|].
      split; [simpl; by rewrite Hlen|].
      intros [|i] r Hi; simpl in Hi.
      * injection Hi as <-. split; [exact HG0|]. split; [exact HD0|].
        split; [exact Hshape0|]. intros j Hj. lia.
      * destruct (Hout i r Hi) as (HG & HD & Hshape & Hbefore).
        apply not_elem_of_cons in HG as [Hne HG].
        split; [exact HG|]. split; [exact HD|]. split; [exact Hshape|].
        intros [|j] Hj; simpl.
        -- split; [|discriminate]. by intros [= ->].
        -- apply Hbefore. lia.
Qed.


End uniqueness.

(** ** The ASCII normaliser *)

Lemma ascii_slugger_app s t :
  ascii_slugger (s +:+ t) = ascii_slugger s +:+ ascii_slugger t.
Proof.
  induction s as [|c s IH]; simpl; [reflexivity|].
  destruct (slugger_removes c); simpl; by rewrite IH.
Qed.

Lemma ascii_slugger_idempotent s :
  ascii_slugger (ascii_slugger s) = ascii_slugger s.
Proof.
  induction s as [|c s IH]; simpl; [reflexivity|].
  destruct (slugger_removes c) eqn:Hc; [exact IH|].
  destruct (Ascii.eqb c " ") eqn:Hsp; simpl.
  - by rewrite IH.
  - by rewrite Hc, Hsp, IH.
Qed.

Lemma pretty_N_char_kept x :
  slugger_removes (pretty_N_char x) = false
  ∧ Ascii.eqb (pretty_N_char x) " " = false.
Proof. unfold pretty_N_char. by repeat case_match. Qed.

Lemma ascii_slugger_pretty_go x s :
  ascii_slugger s = s → ascii_slugger (pretty_N_go x s) = pretty_N_go x s.
Proof.
  revert s. induction (N.lt_wf_0 x) as [x _ IH]; intros s Hs.
  assert (x = 0 ∨ 0 < x)%N as [->|Hx] by lia.
  - by rewrite pretty_N_go_0.
  - rewrite pretty_N_go_step by done. apply IH; [by apply N.div_lt|].
    simpl. destruct (pretty_N_char_kept (x `mod` 10)) as [-> ->].
    by rewrite Hs.
Qed.

Lemma ascii_slugger_pretty (n : nat) : ascii_slugger (pretty n) = pretty n.
Proof.
  unfold pretty, pretty_nat, pretty, pretty_N.
  case_decide; [reflexivity|]. by apply ascii_slugger_pretty_go.
Qed.

Lemma ascii_slugger_suffix v (n : nat) :
  ascii_slugger (ascii_slugger v +:+ "-" +:+ pretty n)
  = ascii_slugger v +:+ "-" +:+ pretty n.
Proof.
  rewrite !ascii_slugger_app, ascii_slugger_idempotent, ascii_slugger_pretty.
  reflexivity.
Qed.

(** ** The modelled passes leave the parent map alone *)

Lemma _generateNodeToDivisionIdMap_parentMap st :
  _parentMap (_generateNodeToDivisionIdMap st) = _parentMap st.
Proof.
  rewrite _generateNodeToDivisionIdMap_fold.
  generalize (traversal (root st)). intros l. revert st.
  induction l as [|x l IH]; intros st; [reflexivity|].
  simpl. rewrite IH, division_visitor_nearest.
  by destruct (nearest_division st x.1 x.2).
Qed.

Lemma number_step_parentMap isDivision NUMBERED_BLOCKS l s :
  _parentMap (foldl (number_step isDivision NUMBERED_BLOCKS) s l).1
  = _parentMap s.1.
Proof.
  revert s. induction l as [|x l IH]; intros s; [reflexivity|].
  simpl. rewrite IH. destruct s as [st' k]. unfold number_step, number_block.
  by destruct (is_numbered_block NUMBERED_BLOCKS x).
Qed.

Lemma _generateBlockToNumberMap_parentMap isDivision NUMBERED_BLOCKS st :
  _parentMap (_generateBlockToNumberMap isDivision NUMBERED_BLOCKS st)
  = _parentMap st.
Proof.
  rewrite _generateBlockToNumberMap_fold. apply number_step_parentMap.
Qed.

Lemma toc_pass_model_parentMap isDivision NUMBERED_BLOCKS st :
  _parentMap (toc_pass_model isDivision NUMBERED_BLOCKS st) = _parentMap st.
Proof.
  unfold toc_pass_model.
  by rewrite _generateNodeToDivisionIdMap_parentMap,
    _generateBlockToNumberMap_parentMap.
Qed.

Lemma refs_pass_model_parentMap st :
  _parentMap (refs_pass_model st) = _parentMap st.
Proof. reflexivity. Qed.

(** ** The statements at the documents above *)

Ltac in_tree_solver :=
  repeat first
    [ apply descends_top
    | eapply descends_child; [|simpl; by repeat constructor] ].



(** C2, where the code departs from it: [declareId] answers "not declared"
    for an id that [getUniqueId] has just generated, and for an id that was
    declared and then drained into the ledger by a [getUniqueId] call.  The
    test [occurrences[id] > 0] misses the ids the ledger holds with count 0,
    and the slugger enters every new id with that count.  Two declarations
    in a row, and an id generated twice, are recognised. *)
Theorem declareId_misses_ledger_ids :
  outcomes [CallGetUniqueId (Some "foo"); CallDeclareId "foo"]
  = Some [Generated "foo"; Declared false]
  ∧ outcomes [CallDeclareId "a"; CallGetUniqueId None; CallDeclareId "a"]
    = Some [Declared false; Generated "auto-generated-id"; Declared false]
  ∧ outcomes [CallDeclareId "a"; CallDeclareId "a"]
    = Some [Declared false; Declared true]
  ∧ outcomes [CallGetUniqueId (Some "foo"); CallGetUniqueId (Some "foo");
              CallDeclareId "foo"]
    = Some [Generated "foo"; Generated "foo-1"; Declared true].
Proof. repeat split; vm_compute; reflexivity. Qed.

Lemma block_numbering_witness :
  let numbers isDivision :=
    _xastBlockToNumber
      (_generateBlockToNumberMap isDivision sample_numbered_blocks
         scenario_state) in
  (numbers (tagged sample_divisions) !! 2 = Some 0
   ∧ numbers (tagged sample_divisions) !! 3 = Some 1
   ∧ (numbers (tagged sample_divisions) !! 5 = Some 0
      ↔ tagged sample_divisions (NodeContent section_s1) = true))
  ∧ (numbers (tagged {["chapter"]}) !! 5 = Some 0
     ↔ tagged {["chapter"]} (NodeContent section_s1) = true).
Proof.
  intros numbers. split.
  - apply (proj2 (proj2 (block_numbering (tagged sample_divisions)
                           sample_numbered_blocks)) scenario_state);
      first [reflexivity | compute_done].
  - apply (proj2 (proj2 (block_numbering (tagged {["chapter"]})
                           sample_numbered_blocks)) scenario_state);
      first [reflexivity | compute_done].
Defined.

Lemma setRoot_parent_index_witness :
  NoDup (tree_ids scenario_root)
  ∧ _parentMap (constructor 100) !! root_id scenario_root = None
  ∧ (∀ p ps c, in_tree scenario_root p ps → c ∈ node_children p →
       _parentMap
         (setRoot (toc_pass_model (tagged sample_divisions)
                     sample_numbered_blocks)
            refs_pass_model scenario_root (constructor 100))
         !! content_id c = Some p)
  ∧ _parentMap
      (setRoot (toc_pass_model (tagged sample_divisions)
                  sample_numbered_blocks)
         refs_pass_model scenario_root (constructor 100))
      !! root_id scenario_root = None.
Proof.
  assert (NoDup (tree_ids scenario_root)) as Hnd by compute_done.
  split; [exact Hnd|]. split; [reflexivity|].
  exact (setRoot_parent_index
           (toc_pass_model (tagged sample_divisions) sample_numbered_blocks)
           refs_pass_model
           (toc_pass_model_parentMap (tagged sample_divisions)
              sample_numbered_blocks)
           refs_pass_model_parentMap scenario_root (constructor 100)
           Hnd eq_refl).
Defined.

(** The claim C5 as it is stated fails: after [setRoot] on the document of
    Section 8 and then on a document that shares no object with it, the
    parent map still sends the chapter of the first document to its root. *)
Lemma setRoot_retains_old_entries :
  NoDup (tree_ids scenario_root ++ tree_ids other_root)
  ∧ ¬ retains_no_entry_of scenario_root
        (setRoot (toc_pass_model (tagged sample_divisions)
                    sample_numbered_blocks)
           refs_pass_model other_root
           (setRoot (toc_pass_model (tagged sample_divisions)
                       sample_numbered_blocks)
              refs_pass_model scenario_root (constructor 100))).
Proof.
  split; [compute_done|]. intros Hnone.
  destruct (Hnone (content_id chapter_c1)) as [Hparent _]; [compute_done|].
  vm_compute in Hparent. discriminate Hparent.
Qed.

Lemma setRoot_keeps_parent_entries_witness :
  NoDup (tree_ids scenario_root ++ tree_ids other_root)
  ∧ let st2 :=
      setRoot (toc_pass_model (tagged sample_divisions)
                 sample_numbered_blocks)
        refs_pass_model other_root
        (setRoot (toc_pass_model (tagged sample_divisions)
                    sample_numbered_blocks)
           refs_pass_model scenario_root (constructor 100)) in
    _parentMap st2 !! content_id other_article = Some (NodeRoot other_root)
    ∧ _parentMap st2 !! content_id chapter_c1 = Some (NodeRoot scenario_root).
Proof.
  assert (NoDup (tree_ids scenario_root ++ tree_ids other_root)) as Hnd
    by compute_done.
  split; [exact Hnd|].
  destruct (setRoot_keeps_parent_entries
              (toc_pass_model (tagged sample_divisions) sample_numbered_blocks)
              refs_pass_model
              (toc_pass_model_parentMap (tagged sample_divisions)
                 sample_numbered_blocks)
              refs_pass_model_parentMap scenario_root other_root 100 Hnd)
    as (_ & Hnew & Hold).
  split.
  - apply (Hnew (NodeRoot other_root) []); [in_tree_solver|].
    simpl. by repeat constructor.
  - apply (Hold (NodeRoot scenario_root) []); [in_tree_solver|].
    simpl. by repeat constructor.
Defined.

Lemma division_membership_witness :
  NoDup (tree_ids (root scenario_state))
  ∧ in_tree (root scenario_state) (NodeContent inner_definition)
      [NodeContent section_s1; NodeContent chapter_c1; NodeRoot scenario_root]
  ∧ _xastNodeToTocDivisionId (_generateNodeToDivisionIdMap scenario_state)
      !! content_id inner_definition = Some "s1"
  ∧ _xastNodeToTocDivisionId (_generateNodeToDivisionIdMap scenario_state)
      !! content_id section_s1 = Some "s1"
  ∧ _xastNodeToTocDivisionId (_generateNodeToDivisionIdMap scenario_state)
      !! root_id scenario_root = None.
Proof.
  assert (NoDup (tree_ids (root scenario_state))) as Hnd by compute_done.
  assert (in_tree (root scenario_state) (NodeContent inner_definition)
            [NodeContent section_s1; NodeContent chapter_c1;
             NodeRoot scenario_root]) as Hinner by in_tree_solver.
  assert (in_tree (root scenario_state) (NodeContent section_s1)
            [NodeContent chapter_c1; NodeRoot scenario_root]) as Hsection
    by in_tree_solver.
  assert (in_tree (root scenario_state) (NodeRoot scenario_root) []) as Hroot
    by in_tree_solver.
  split; [exact Hnd|]. split; [exact Hinner|]. split; [|split].
  - exact (proj1 (proj2 (division_membership scenario_state _ _ Hnd Hinner))
             eq_refl (NodeContent section_s1) eq_refl).
  - exact (proj1 (division_membership scenario_state _ _ Hnd Hsection)
             eq_refl).
  - exact (proj2 (proj2 (proj2 (division_membership scenario_state _ _ Hnd
                                  Hroot)) eq_refl eq_refl) eq_refl).
Defined.



(** The claim C8 as it is stated fails: where the cross-reference index
    holds an entry under the empty string, [getRefTargetInfo] returns that
    entry for a node that has no [ref] attribute, and for a node that has no
    attributes at all. *)
Lemma getRefTargetInfo_finds_empty_key :
  getRefTargetInfo nameless_target_state
    (NodeContent (XastElement 7 "xref" (Some {["first" := "c1"]}) []))
  = Some nameless_target
  ∧ getRefTargetInfo nameless_target_state
      (NodeContent (XastElement 7 "xref" None []))
    = Some nameless_target.
Proof. split; reflexivity. Qed.

Lemma division_without_id_witness :
  let n := NodeContent lone_p in
  let ps := [NodeContent chapter_without_id; NodeRoot unlabelled_root] in
  let st' := _generateNodeToDivisionIdMap unlabelled_state_with_entry in
  NoDup (tree_ids (root unlabelled_state_with_entry))
  ∧ in_tree (root unlabelled_state_with_entry) n ps
  ∧ nearest_division unlabelled_state_with_entry n ps
    = Some (NodeContent chapter_without_id)
  ∧ node_attribute "xml:id" (NodeContent chapter_without_id) = None
  ∧ _xastNodeToTocDivisionId st' !! node_id n = Some ""
  ∧ getTocItemInfo st' n = None
  ∧ getDivisionDisplayName sample_display_names st' n = Some "Chapter"
  ∧ getBlockInfo sample_display_names st' 22 "p" None [] = None
  ∧ getTocItemInfo st' (NodeRoot unlabelled_root) = None
  ∧ getDivisionDisplayName sample_display_names st' (NodeRoot unlabelled_root)
    = Some "Chapter".
Proof.
  intros n ps st'.
  assert (NoDup (tree_ids (root unlabelled_state_with_entry))) as Hnd
    by compute_done.
  assert (in_tree (root unlabelled_state_with_entry) n ps) as Hin
    by in_tree_solver.
  split; [exact Hnd|]. split; [exact Hin|].
  split; [reflexivity|]. split; [reflexivity|].
  destruct (division_without_id sample_display_names
              unlabelled_state_with_entry n ps
              (NodeContent chapter_without_id) Hnd Hin eq_refl eq_refl)
    as (Hmap & Htoc & Hname & Hblock & Hother).
  split; [exact Hmap|]. split; [exact Htoc|]. split; [exact Hname|].
  split; [exact (Hblock 22 "p" None [] eq_refl)|].
  destruct (Hother (NodeRoot unlabelled_root) []) as (Htoc0 & Hname0 & _);
    [in_tree_solver | reflexivity | reflexivity |].
  by split.
Defined.

(** The claim C9 as it is stated fails: in [root > chapter > p], where the
    chapter is recorded as a division and carries no [xml:id], and the ToC
    info map holds an entry under the empty string, [getTocItemInfo(p)] is
    absent and [getDivisionDisplayName(p)] is not: it looks
    [tocParentId || ""] up without the test [if (tocParentId)] and finds the
    entry. *)
Remark entry_under_empty_string :
  let n := NodeContent lone_p in
  let ps := [NodeContent chapter_without_id; NodeRoot unlabelled_root] in
  let st' := _generateNodeToDivisionIdMap unlabelled_state_with_entry in
  NoDup (tree_ids (root unlabelled_state_with_entry))
  ∧ in_tree (root unlabelled_state_with_entry) n ps
  ∧ nearest_division unlabelled_state_with_entry n ps
    = Some (NodeContent chapter_without_id)
  ∧ node_attribute "xml:id" (NodeContent chapter_without_id) = None
  ∧ _xastNodeToTocDivisionId st' !! node_id n = Some ""
  ∧ getTocItemInfo st' n = None
  ∧ getDivisionDisplayName sample_display_names st' n ≠ None.
Proof.
  intros n ps st'. split; [compute_done|]. split; [in_tree_solver|].
  split; [reflexivity|]. split; [reflexivity|]. split; [reflexivity|].
  split; [reflexivity|]. vm_compute. discriminate.
Qed.

Lemma getBlockInfo_unnumbered_witness :
  let ps := [NodeContent chapter_c1; NodeRoot scenario_root] in
  NoDup (tree_ids (root scenario_state))
  ∧ in_tree (root scenario_state) (NodeContent section_s1) ps
  ∧ _xastBlockToNumber scenario_state !! 4 = None
  ∧ ("section" ∉ sample_numbered_blocks)
  ∧ nearest_division scenario_state (NodeContent section_s1) ps
    = Some (NodeContent section_s1)
  ∧ attribute_or_empty "xml:id" (NodeContent section_s1) ≠ ""
  ∧ toc_entry_of scenario_state (NodeContent section_s1) = Some s1_info
  ∧ getBlockInfo sample_display_names
      (_generateNodeToDivisionIdMap
         (_generateBlockToNumberMap (tagged sample_divisions)
            sample_numbered_blocks scenario_state))
      4 "section" (Some {["xml:id" := "s1"]}) [inner_definition]
    = Some (mkBlockInfo "section" None s1_info).
Proof.
  intros ps.
  assert (NoDup (tree_ids (root scenario_state))) as Hnd by compute_done.
  assert (in_tree (root scenario_state) (NodeContent section_s1) ps) as Hin
    by in_tree_solver.
  assert ("section" ∉ sample_numbered_blocks) as Hnm by compute_done.
  assert (attribute_or_empty "xml:id" (NodeContent section_s1) ≠ "") as Hid
    by compute_done.
  split; [exact Hnd|]. split; [exact Hin|]. split; [reflexivity|].
  split; [exact Hnm|]. split; [reflexivity|]. split; [exact Hid|].
  split; [reflexivity|].
  exact (getBlockInfo_unnumbered (tagged sample_divisions)
           sample_numbered_blocks sample_display_names scenario_state
           4 "section" (Some {["xml:id" := "s1"]}) [inner_definition] ps
           (NodeContent section_s1) s1_info Hnd Hin eq_refl Hnm eq_refl Hid
           eq_refl).
Defined.

(** * Further properties *)

(** ** The allocator *)

Section allocator_more.

Variable slugger : string → string.

Lemma slug_zero value occ r occ' :
  slug slugger value occ = Some (r, occ') → occ' !! r = Some 0.
Proof.
  unfold slug. destruct (slug_loop _ occ _ _) as [[occ1 r1]|]; [|discriminate].
  intros [= <- <-]. apply lookup_insert_eq.
Qed.

(** What a [getUniqueId] call leaves behind. *)
Lemma getUniqueId_post preferredName st r st' :
  getUniqueId slugger preferredName st = Some (r, st') →
  _declaredIdCache st' = []
  ∧ _slugger st !! r = None
  ∧ _slugger st' !! r = Some 0
  ∧ dom (_slugger st) ⊆ dom (_slugger st')
  ∧ ∀ id, id ∈ _declaredIdCache st → slugger id ∈ dom (_slugger st').
Proof.
  unfold getUniqueId. case_bool_decide as Hlen.
  - destruct (drain slugger _ _) as [occ1|] eqn:Hdrain; [|discriminate].
    simpl.
    destruct (slug slugger _ occ1) as [[r' occ']|] eqn:Hslug; [|discriminate].
    intros [= <- <-]. simpl.
    apply drain_Some in Hdrain as [Hsub Hids].
    pose proof (slug_zero _ _ _ _ Hslug) as Hzero.
    apply slug_Some in Hslug as (Hnew & Hsub' & _).
    split; [reflexivity|]. split.
    { apply not_elem_of_dom. apply not_elem_of_dom in Hnew. set_solver. }
    split; [exact Hzero|]. split; [set_solver|].
    intros id Hid. apply Hsub'. by apply Hids.
  - destruct (slug slugger _ (_slugger st)) as [[r' occ']|] eqn:Hslug;
      [|discriminate].
    intros [= <- <-]. simpl.
    pose proof (slug_zero _ _ _ _ Hslug) as Hzero.
    apply slug_Some in Hslug as (Hnew & Hsub' & _).
    assert (_declaredIdCache st = []) as Hcache.
    { destruct (_declaredIdCache st); [reflexivity|]. simpl in Hlen. lia. }
    split; [exact Hcache|]. split; [exact Hnew|]. split; [exact Hzero|].
    split; [exact Hsub'|]. rewrite Hcache. by intros id ?%elem_of_nil.
Qed.

(** X3: a [getUniqueId] call empties the cache of declared ids and commits
    them: afterwards the slug of every id that waited in the cache is a key
    of the slugger's ledger.  The id it returns was no key before and is one
    after, with count 0, and no key is ever dropped. *)
Theorem getUniqueId_drains preferredName st :
  ∃ r st',
    getUniqueId slugger preferredName st = Some (r, st')
    ∧ _declaredIdCache st' = []
    ∧ _slugger st !! r = None
    ∧ _slugger st' !! r = Some 0
    ∧ dom (_slugger st) ⊆ dom (_slugger st')
    ∧ ∀ id, id ∈ _declaredIdCache st → slugger id ∈ dom (_slugger st').
Proof.
  destruct (getUniqueId_total slugger preferredName st) as [[r st'] Hget].
  exists r, st'. split; [exact Hget|]. by apply getUniqueId_post in Hget.
Qed.

(** X4: [declareId] never recognises the id that the [getUniqueId] call just
    before it returned: the cache is empty then and the ledger holds the id
    with count 0, which [occurrences[id] > 0] does not accept.  The call
    answers [false] and puts the id in the cache. *)
Theorem declareId_after_getUniqueId preferredName st :
  ∃ r st',
    getUniqueId slugger preferredName st = Some (r, st')
    ∧ declareId r st' = (false, set_declaredIdCache [r] st').
Proof.
  destruct (getUniqueId_total slugger preferredName st) as [[r st'] Hget].
  exists r, st'. split; [exact Hget|].
  apply getUniqueId_post in Hget as (Hcache & _ & Hzero & _).
  unfold declareId. by rewrite Hcache, Hzero.
Qed.

Lemma append_same s t : s +:+ t = s → t = "".
Proof.
  induction s as [|c s IH]; simpl; [done|]. intros [= Heq]. by apply IH.
Qed.

Lemma suffixed_ne s n : suffixed s n ≠ s.
Proof. unfold suffixed. by intros ?%append_same. Qed.

Lemma suffixed_inj s i j : suffixed s i = suffixed s j → i = j.
Proof.
  unfold suffixed. intros Heq. apply (inj (String.app s)) in Heq.
  apply (inj (String.app "-")) in Heq. by apply (inj pretty) in Heq.
Qed.

Lemma slug_loop_free fuel occ orig r :
  occ !! r = None → slug_loop fuel occ orig r = Some (occ, r).
Proof. intros Hr. destruct fuel; simpl; by rewrite Hr. Qed.

(** A slug that is no key of the ledger is returned as it is. *)
Lemma slug_first value occ :
  occ !! slugger value = None →
  slug slugger value occ
  = Some (slugger value, <[slugger value := 0]> occ).
Proof. intros Hfree. unfold slug. by rewrite slug_loop_free. Qed.

(** A slug that was given out [j] times after the first gets the suffix
    [j + 1]. *)
Lemma slug_counted value j occ :
  counted (slugger value) j occ →
  ∃ occ',
    slug slugger value occ = Some (suffixed (slugger value) (S j), occ')
    ∧ counted (slugger value) (S j) occ'.
Proof.
  set (s := slugger value). intros [Hs Hkeys].
  assert (occ !! suffixed s (S j) = None) as Hfree.
  { destruct (occ !! suffixed s (S j)) as [n|] eqn:Hocc; [|reflexivity].
    destruct (Hkeys (suffixed s (S j))) as [Heq|(i & Hi & Heq)];
      [by eexists|by apply suffixed_ne in Heq|].
    apply suffixed_inj in Heq. lia. }
  eexists. split.
  - unfold slug. fold s. simpl. rewrite Hs. simpl. fold (suffixed s (S j)).
    rewrite slug_loop_free; [reflexivity|].
    rewrite lookup_insert_ne by (apply not_eq_sym, suffixed_ne). exact Hfree.
  - split.
    + rewrite lookup_insert_ne by apply suffixed_ne. apply lookup_insert_eq.
    + intros x [<-|[_ [<-|[_ Hx]]%lookup_insert_is_Some]]%lookup_insert_is_Some.
      * right. exists (S j). split; [lia|reflexivity].
      * by left.
      * destruct (Hkeys x Hx) as [->|(i & Hi & ->)]; [by left|].
        right. exists i. split; [lia|reflexivity].
Qed.

Lemma getUniqueId_counted preferredName j st :
  _declaredIdCache st = [] →
  counted (slugger (preferred_or_default preferredName)) j (_slugger st) →
  ∃ st',
    getUniqueId slugger preferredName st
    = Some (suffixed (slugger (preferred_or_default preferredName)) (S j), st')
    ∧ _declaredIdCache st' = []
    ∧ counted (slugger (preferred_or_default preferredName)) (S j)
        (_slugger st').
Proof.
  intros Hcache Hcount. unfold getUniqueId. rewrite Hcache. simpl.
  destruct (slug_counted _ _ _ Hcount) as (occ' & -> & Hcount').
  eexists. split; [reflexivity|]. split; [exact Hcache|exact Hcount'].
Qed.

Lemma run_counted preferredName n j st :
  _declaredIdCache st = [] →
  counted (slugger (preferred_or_default preferredName)) j (_slugger st) →
  ∃ st',
    run slugger (replicate n (CallGetUniqueId preferredName)) st
    = Some ((λ i, Generated
                    (suffixed (slugger (preferred_or_default preferredName)) i))
              <$> seq (S j) n, st').
Proof.
  revert j st. induction n as [|n IH]; intros j st Hcache Hcount.
  - by exists st.
  - destruct (getUniqueId_counted _ _ _ Hcache Hcount)
      as (st1 & Hget & Hcache1 & Hcount1).
    destruct (IH (S j) st1 Hcache1 Hcount1) as (st' & Hrun).
    exists st'. simpl. by rewrite Hget, Hrun.
Qed.

(** X5: asked for the same name again and again on a new state,
    [getUniqueId] returns the slug of the name, then the slug with the
    suffixes [-1], [-2], [-3] and so on, in this order and with no gap. *)
Theorem getUniqueId_suffixes preferredName n fresh :
  ∃ st',
    run slugger (replicate (S n) (CallGetUniqueId preferredName))
      (constructor fresh)
    = Some (Generated (slugger (preferred_or_default preferredName))
              :: ((λ i, Generated
                          (suffixed
                             (slugger (preferred_or_default preferredName)) i))
                    <$> seq 1 n),
            st').
Proof.
  set (s := slugger (preferred_or_default preferredName)).
  assert (getUniqueId slugger preferredName (constructor fresh)
          = Some (s, set_slugger {[s := 0]} (constructor fresh))) as Hget.
  { unfold getUniqueId. simpl. by rewrite slug_first. }
  destruct (run_counted preferredName n 0
              (set_slugger {[s := 0]} (constructor fresh))) as (st' & Hrun).
  - reflexivity.
  - split; [apply lookup_singleton_eq|]. simpl.
    intros x [y Hx]. apply lookup_singleton_Some in Hx as [<- _]. by left.
  - exists st'. simpl. fold s in Hrun. by rewrite Hget, Hrun.
Qed.

(** X6: a declared id wins over a preferred name.  On a new state, after
    [declareId(d)], a [getUniqueId] call whose preferred name has the slug of
    [d] does not return that slug: draining commits it, and the call returns
    it with the suffix [-1]. *)
Theorem declared_id_is_avoided d preferredName fresh :
  slugger (preferred_or_default preferredName) = slugger d →
  ∃ st',
    run slugger [CallDeclareId d; CallGetUniqueId preferredName]
      (constructor fresh)
    = Some ([Declared false; Generated (suffixed (slugger d) 1)], st').
Proof.
  intros Hslug.
  assert (counted (slugger (preferred_or_default preferredName)) 0
            {[slugger d := 0]}) as Hcount.
  { rewrite Hslug. split; [apply lookup_singleton_eq|].
    intros x [y Hx]. apply lookup_singleton_Some in Hx as [<- _]. by left. }
  destruct (slug_counted _ _ _ Hcount) as (occ' & Hnext & _).
  rewrite Hslug in Hnext.
  assert (declareId d (constructor fresh)
          = (false, set_declaredIdCache [d] (constructor fresh))) as Hdecl.
  { unfold declareId. simpl.
    by rewrite lookup_empty. }
  assert (getUniqueId slugger preferredName
            (set_declaredIdCache [d] (constructor fresh))
          = Some (suffixed (slugger d) 1,
                  set_slugger occ'
                    (set_declaredIdCache []
                       (set_slugger {[slugger d := 0]}
                          (set_declaredIdCache [d] (constructor fresh))))))
    as Hget.
  { unfold getUniqueId. simpl. rewrite slug_first by reflexivity. simpl.
    change (<[slugger d:=0]> ∅) with ({[slugger d := 0]} : gmap string nat).
    by rewrite Hnext. }
  eexists. simpl. rewrite Hdecl, Hget. reflexivity.
Qed.

End allocator_more.

Lemma declared_id_is_avoided_witness :
  ascii_slugger (preferred_or_default (Some "intro")) = ascii_slugger "intro"
  ∧ ∃ st',
      run ascii_slugger [CallDeclareId "intro"; CallGetUniqueId (Some "intro")]
        (constructor 0)
      = Some ([Declared false; Generated (suffixed (ascii_slugger "intro") 1)],
              st').
Proof.
  split; [reflexivity|].
  exact (declared_id_is_avoided ascii_slugger "intro" (Some "intro") 0
           eq_refl).
Defined.

(** ** The passes as batches of writes *)

Lemma apply_writes_cons {V} (m : gmap nat V) w ws :
  apply_writes m (w :: ws) = apply_writes (<[w.1 := w.2]> m) ws.
Proof. reflexivity. Qed.

(** A key that no write has keeps its entry. *)
Lemma apply_writes_frame {V} (m : gmap nat V) ws k :
  k ∉ ws.*1 → apply_writes m ws !! k = m !! k.
Proof.
  revert m. induction ws as [|w ws IH]; intros m Hk; [reflexivity|].
  rewrite fmap_cons in Hk. apply not_elem_of_cons in Hk as [Hne Hk].
  rewrite apply_writes_cons, IH by exact Hk. by rewrite lookup_insert_ne.
Qed.

(** No write removes an entry. *)
Lemma apply_writes_dom {V} (m : gmap nat V) ws :
  dom m ⊆ dom (apply_writes m ws).
Proof.
  revert m. induction ws as [|w ws IH]; intros m; [reflexivity|].
  rewrite apply_writes_cons. etrans; [|apply IH]. set_solver.
Qed.

(** The result of a batch depends on the map only at the keys the batch does
    not write. *)
Lemma apply_writes_ext {V} (m m' : gmap nat V) ws :
  (∀ k, k ∉ ws.*1 → m !! k = m' !! k) →
  apply_writes m ws = apply_writes m' ws.
Proof.
  revert m m'. induction ws as [|w ws IH]; intros m m' Hagree.
  - apply map_eq. intros k. apply Hagree. by intros ?%elem_of_nil.
  - rewrite !apply_writes_cons. apply IH. intros k Hk.
    destruct (decide (k = w.1)) as [->|Hne].
    + by rewrite !lookup_insert_eq.
    + rewrite !lookup_insert_ne by done. apply Hagree.
      rewrite fmap_cons. by apply not_elem_of_cons.
Qed.

(** Applying a batch a second time changes nothing. *)
Lemma apply_writes_twice {V} (m : gmap nat V) ws :
  apply_writes (apply_writes m ws) ws = apply_writes m ws.
Proof. apply apply_writes_ext. intros k. apply apply_writes_frame. Qed.

Lemma set_parentMap_same st : set_parentMap (_parentMap st) st = st.
Proof. by destruct st. Qed.

Lemma set_xastNodeToTocDivisionId_same st :
  set_xastNodeToTocDivisionId (_xastNodeToTocDivisionId st) st = st.
Proof. by destruct st. Qed.

Lemma set_xastBlockToNumber_same st :
  set_xastBlockToNumber (_xastBlockToNumber st) st = st.
Proof. by destruct st. Qed.

Lemma parent_fold_writes l st :
  foldl parent_visitor st l
  = set_parentMap (apply_writes (_parentMap st) (parent_writes l)) st.
Proof.
  revert st. induction l as [|x l IH]; intros st.
  - symmetry. apply set_parentMap_same.
  - simpl. rewrite IH. unfold parent_visitor, parent_writes. simpl.
    by destruct (x.2).
Qed.

(** [_generateParentMap] replaces the parent map by the map with the writes
    of the walk applied, and touches nothing else. *)
Lemma _generateParentMap_writes st :
  _generateParentMap st
  = set_parentMap
      (apply_writes (_parentMap st) (parent_writes (traversal (root st)))) st.
Proof. rewrite _generateParentMap_fold. apply parent_fold_writes. Qed.

Lemma division_writes_divisions st st' l :
  _xastDivisions st' = _xastDivisions st →
  division_writes st' l = division_writes st l.
Proof.
  intros Heq. unfold division_writes, omap.
  induction l as [|x l IH]; [reflexivity|]. simpl.
  by rewrite IH, (nearest_division_divisions st st' _ _ Heq).
Qed.

Lemma division_writes_set_parentMap m st l :
  division_writes (set_parentMap m st) l = division_writes st l.
Proof. by apply division_writes_divisions. Qed.

Lemma division_writes_set_xastNodeToTocDivisionId m st l :
  division_writes (set_xastNodeToTocDivisionId m st) l = division_writes st l.
Proof. by apply division_writes_divisions. Qed.

Lemma division_writes_set_xastBlockToNumber m st l :
  division_writes (set_xastBlockToNumber m st) l = division_writes st l.
Proof. by apply division_writes_divisions. Qed.

Lemma division_fold_writes l st :
  foldl division_visitor st l
  = set_xastNodeToTocDivisionId
      (apply_writes (_xastNodeToTocDivisionId st) (division_writes st l)) st.
Proof.
  revert st. induction l as [|x l IH]; intros st.
  - symmetry. apply set_xastNodeToTocDivisionId_same.
  - simpl. rewrite IH.
    rewrite (division_writes_divisions st _ l (division_visitor_divisions st x)).
    rewrite division_visitor_nearest. unfold division_writes at 2. simpl.
    by destruct (nearest_division st x.1 x.2).
Qed.

(** [_generateNodeToDivisionIdMap] replaces the division-membership map by
    the map with the writes of the walk applied, and touches nothing else. *)
Lemma _generateNodeToDivisionIdMap_writes st :
  _generateNodeToDivisionIdMap st
  = set_xastNodeToTocDivisionId
      (apply_writes (_xastNodeToTocDivisionId st)
         (division_writes st (traversal (root st)))) st.
Proof. rewrite _generateNodeToDivisionIdMap_fold. apply division_fold_writes. Qed.

Lemma number_fold_writes isDivision NUMBERED_BLOCKS l st number :
  (foldl (number_step isDivision NUMBERED_BLOCKS) (st, number) l).1
  = set_xastBlockToNumber
      (apply_writes (_xastBlockToNumber st)
         (block_writes isDivision NUMBERED_BLOCKS number l)) st.
Proof.
  revert st number. induction l as [|x l IH]; intros st number.
  - symmetry. apply set_xastBlockToNumber_same.
  - cbn [foldl block_writes]. unfold number_step at 2, number_block.
    destruct (is_numbered_block NUMBERED_BLOCKS x); by rewrite IH.
Qed.

(** [_generateBlockToNumberMap] replaces the block-number map by the map
    with the writes of the walk over the elements applied, and touches
    nothing else. *)
Lemma _generateBlockToNumberMap_writes isDivision NUMBERED_BLOCKS st :
  _generateBlockToNumberMap isDivision NUMBERED_BLOCKS st
  = set_xastBlockToNumber
      (apply_writes (_xastBlockToNumber st)
         (block_writes isDivision NUMBERED_BLOCKS 0
            (List.filter isElement (preorder (root st))))) st.
Proof. rewrite _generateBlockToNumberMap_fold. apply number_fold_writes. Qed.

(** The writes of the three passes are keyed by objects of the tree. *)
Lemma parent_writes_keys l k :
  k ∈ (parent_writes l).*1 → k ∈ (node_id ∘ fst) <$> l.
Proof.
  induction l as [|x l IH]; [done|]. unfold parent_writes. simpl.
  destruct (x.2); simpl; rewrite ?elem_of_cons; intros; naive_solver.
Qed.

Lemma division_writes_keys st l k :
  k ∈ (division_writes st l).*1 → k ∈ (node_id ∘ fst) <$> l.
Proof.
  induction l as [|x l IH]; [done|]. unfold division_writes. simpl.
  destruct (nearest_division st x.1 x.2); simpl; rewrite ?elem_of_cons;
    intros; naive_solver.
Qed.

Lemma block_writes_keys isDivision NUMBERED_BLOCKS number l k :
  k ∈ (block_writes isDivision NUMBERED_BLOCKS number l).*1 →
  k ∈ node_id <$> l.
Proof.
  revert number. induction l as [|x l IH]; intros number; [done|]. simpl.
  destruct (is_numbered_block NUMBERED_BLOCKS x); simpl;
    rewrite ?elem_of_cons; intros; naive_solver.
Qed.

(** ** The three index passes together *)

Section passes.

Variable isDivision : XastNode → bool.
Variable NUMBERED_BLOCKS : gset string.

(** X7: each of the three index passes is idempotent: run a second time on
    the same tree, it writes the entries it has written and leaves the state
    as it is.  This holds also for a tree in which an object occurs twice,
    where the later visit of the object overwrites the earlier in both
    runs. *)
Theorem index_passes_idempotent st :
  _generateParentMap (_generateParentMap st) = _generateParentMap st
  ∧ _generateNodeToDivisionIdMap (_generateNodeToDivisionIdMap st)
    = _generateNodeToDivisionIdMap st
  ∧ _generateBlockToNumberMap isDivision NUMBERED_BLOCKS
      (_generateBlockToNumberMap isDivision NUMBERED_BLOCKS st)
    = _generateBlockToNumberMap isDivision NUMBERED_BLOCKS st.
Proof.
  split; [|split].
  - rewrite (_generateParentMap_writes st).
    rewrite _generateParentMap_writes. simpl.
    by rewrite apply_writes_twice.
  - rewrite (_generateNodeToDivisionIdMap_writes st).
    rewrite _generateNodeToDivisionIdMap_writes. simpl.
    rewrite division_writes_set_xastNodeToTocDivisionId.
    by rewrite apply_writes_twice.
  - rewrite (_generateBlockToNumberMap_writes _ _ st).
    rewrite _generateBlockToNumberMap_writes. simpl.
    by rewrite apply_writes_twice.
Qed.

(** X8: the three index passes commute: each writes a map of its own and
    reads, besides the tree, only the set of recorded divisions, which none
    of them writes.  The order in which they run does not matter. *)
Theorem index_passes_commute st :
  _generateParentMap (_generateNodeToDivisionIdMap st)
  = _generateNodeToDivisionIdMap (_generateParentMap st)
  ∧ _generateParentMap (_generateBlockToNumberMap isDivision NUMBERED_BLOCKS st)
    = _generateBlockToNumberMap isDivision NUMBERED_BLOCKS
        (_generateParentMap st)
  ∧ _generateNodeToDivisionIdMap
      (_generateBlockToNumberMap isDivision NUMBERED_BLOCKS st)
    = _generateBlockToNumberMap isDivision NUMBERED_BLOCKS
        (_generateNodeToDivisionIdMap st).
Proof.
  split; [|split].
  - rewrite (_generateNodeToDivisionIdMap_writes st),
      (_generateParentMap_writes st).
    rewrite _generateParentMap_writes, _generateNodeToDivisionIdMap_writes.
    simpl. by rewrite division_writes_set_parentMap.
  - rewrite (_generateBlockToNumberMap_writes _ _ st),
      (_generateParentMap_writes st).
    by rewrite _generateParentMap_writes, _generateBlockToNumberMap_writes.
  - rewrite (_generateBlockToNumberMap_writes _ _ st),
      (_generateNodeToDivisionIdMap_writes st).
    rewrite _generateNodeToDivisionIdMap_writes,
      _generateBlockToNumberMap_writes.
    simpl. by rewrite division_writes_set_xastBlockToNumber.
Qed.

(** X9: no index pass removes an entry: every key of the parent map, of the
    division-membership map and of the block-number map is still a key after
    the pass. *)
Theorem index_passes_keep_keys st :
  dom (_parentMap st) ⊆ dom (_parentMap (_generateParentMap st))
  ∧ dom (_xastNodeToTocDivisionId st)
    ⊆ dom (_xastNodeToTocDivisionId (_generateNodeToDivisionIdMap st))
  ∧ dom (_xastBlockToNumber st)
    ⊆ dom (_xastBlockToNumber
             (_generateBlockToNumberMap isDivision NUMBERED_BLOCKS st)).
Proof.
  rewrite _generateParentMap_writes, _generateNodeToDivisionIdMap_writes,
    _generateBlockToNumberMap_writes. simpl.
  split; [|split]; apply apply_writes_dom.
Qed.

(** X10: an index pass writes only under the objects of the tree: the entry
    under any other address is what it was before the pass, in each of the
    three maps. *)
Theorem index_passes_write_tree_only st k :
  k ∉ tree_ids (root st) →
  _parentMap (_generateParentMap st) !! k = _parentMap st !! k
  ∧ _xastNodeToTocDivisionId (_generateNodeToDivisionIdMap st) !! k
    = _xastNodeToTocDivisionId st !! k
  ∧ _xastBlockToNumber
      (_generateBlockToNumberMap isDivision NUMBERED_BLOCKS st) !! k
    = _xastBlockToNumber st !! k.
Proof.
  intros Hk.
  rewrite _generateParentMap_writes, _generateNodeToDivisionIdMap_writes,
    _generateBlockToNumberMap_writes.
  unfold set_parentMap, set_xastNodeToTocDivisionId, set_xastBlockToNumber.
  cbn [_parentMap _xastNodeToTocDivisionId _xastBlockToNumber].
  split; [|split]; apply apply_writes_frame; intros Hin; apply Hk.
  - rewrite <- traversal_ids. by apply parent_writes_keys in Hin.
  - rewrite <- traversal_ids. by apply division_writes_keys in Hin.
  - rewrite <- preorder_ids. apply block_writes_keys in Hin.
    by apply (elem_of_fmap_filter node_id isElement) in Hin.
Qed.

End passes.

Lemma index_passes_write_tree_only_witness :
  let st :=
    set_root scenario_root (_generateParentMap (set_root other_root
                                                  (constructor 0))) in
  (11 ∉ tree_ids (root st))
  ∧ _parentMap st !! 11 = Some (NodeRoot other_root)
  ∧ _parentMap (_generateParentMap st) !! 11 = _parentMap st !! 11
  ∧ _xastNodeToTocDivisionId (_generateNodeToDivisionIdMap st) !! 11
    = _xastNodeToTocDivisionId st !! 11
  ∧ _xastBlockToNumber
      (_generateBlockToNumberMap (tagged sample_divisions)
         sample_numbered_blocks st) !! 11
    = _xastBlockToNumber st !! 11.
Proof.
  intros st.
  assert (11 ∉ tree_ids (root st)) as Hk by compute_done.
  split; [exact Hk|]. split; [reflexivity|].
  exact (index_passes_write_tree_only (tagged sample_divisions)
           sample_numbered_blocks st 11 Hk).
Defined.

(** ** The parent map, followed upward *)

(** X11: the parent map holds the whole chain of ancestors.  After the pass
    over a tree, following the map upward from a node of the tree meets the
    ancestors of the node, nearest first, and ends at the root, which has no
    entry: the walk gives [info.parents] back.  The tree holds no object
    twice, and, as at construction, the map held no entry for the root
    object before. *)
Theorem parent_chain r st n ps fuel :
  NoDup (tree_ids r) →
  _parentMap st !! root_id r = None →
  in_tree r n ps →
  length ps < fuel →
  ancestors_of (_parentMap (_generateParentMap (set_root r st))) fuel
    (node_id n)
  = ps.
Proof.
  intros Hnd Hroot Hin. revert fuel. unfold in_tree in Hin.
  induction Hin as [|p qs c Hp IH Hc]; intros fuel Hfuel.
  - destruct fuel as [|fuel]; [simpl in Hfuel; lia|]. cbn [ancestors_of].
    change (node_id (NodeRoot r)) with (root_id r).
    rewrite _generateParentMap_other; [by rewrite Hroot|].
    unfold tree_ids in Hnd. by apply NoDup_cons in Hnd as [? _].
  - destruct fuel as [|fuel]; [simpl in Hfuel; lia|]. cbn [ancestors_of].
    rewrite (_generateParentMap_child r st (NodeContent c) p qs Hnd)
      by (by eapply descends_child).
    f_equal. apply IH. simpl in Hfuel. lia.
Qed.

Lemma parent_chain_witness :
  NoDup (tree_ids scenario_root)
  ∧ _parentMap (constructor 100) !! root_id scenario_root = None
  ∧ in_tree scenario_root (NodeContent inner_definition)
      [NodeContent section_s1; NodeContent chapter_c1; NodeRoot scenario_root]
  ∧ length [NodeContent section_s1; NodeContent chapter_c1;
            NodeRoot scenario_root] < 4
  ∧ ancestors_of
      (_parentMap (_generateParentMap (set_root scenario_root
                                         (constructor 100))))
      4 (node_id (NodeContent inner_definition))
    = [NodeContent section_s1; NodeContent chapter_c1; NodeRoot scenario_root].
Proof.
  assert (NoDup (tree_ids scenario_root)) as Hnd by compute_done.
  assert (in_tree scenario_root (NodeContent inner_definition)
            [NodeContent section_s1; NodeContent chapter_c1;
             NodeRoot scenario_root]) as Hin by in_tree_solver.
  assert (length [NodeContent section_s1; NodeContent chapter_c1;
                  NodeRoot scenario_root] < 4) as Hlen by (simpl; lia).
  split; [exact Hnd|]. split; [reflexivity|]. split; [exact Hin|].
  split; [exact Hlen|].
  exact (parent_chain scenario_root (constructor 100)
           (NodeContent inner_definition) _ 4 Hnd eq_refl Hin Hlen).
Defined.

(** ** Block numbers, further *)

Section block_numbers_more.

Variable isDivision : XastNode → bool.
Variable NUMBERED_BLOCKS : gset string.
Variable STRING_ID_TO_DISPLAY_NAME : gmap string string.

Lemma since_last_division_app l mid :
  existsb isDivision mid = false →
  since_last_division isDivision (l ++ mid)
  = since_last_division isDivision l ++ mid.
Proof.
  induction mid as [|x mid IH] using rev_ind; intros Hmid.
  - by rewrite !app_nil_r.
  - rewrite existsb_app in Hmid. simpl in Hmid.
    apply orb_false_elim in Hmid as [Hmid Hx].
    rewrite orb_false_r in Hx.
    rewrite !app_assoc, since_last_division_snoc, Hx.
    by rewrite IH.
Qed.

Lemma plain_run mid :
  (∀ x, x ∈ mid →
     isDivision x = false ∧ is_numbered_block NUMBERED_BLOCKS x = false) →
  existsb isDivision mid = false
  ∧ List.filter (is_numbered_block NUMBERED_BLOCKS) mid = [].
Proof.
  induction mid as [|x mid IH]; intros Hmid; [done|]. simpl.
  destruct (Hmid x) as [-> ->]; [by left|]. simpl.
  apply IH. intros y Hy. apply Hmid. by right.
Qed.

(** X12: within a division the numbers go up by one.  When the numbered
    block [b2] is the next numbered block after the numbered block [b1] in
    document order, with no division in between and [b2] no division
    itself, the number of [b2] is that of [b1] plus one. *)
Theorem block_number_successor st pre b1 mid b2 post :
  NoDup (tree_ids (root st)) →
  List.filter isElement (preorder (root st)) = pre ++ b1 :: mid ++ b2 :: post →
  is_numbered_block NUMBERED_BLOCKS b1 = true →
  is_numbered_block NUMBERED_BLOCKS b2 = true →
  isDivision b2 = false →
  (∀ x, x ∈ mid →
     isDivision x = false ∧ is_numbered_block NUMBERED_BLOCKS x = false) →
  ∃ k,
    _xastBlockToNumber (_generateBlockToNumberMap isDivision NUMBERED_BLOCKS st)
      !! node_id b1 = Some k
    ∧ _xastBlockToNumber
        (_generateBlockToNumberMap isDivision NUMBERED_BLOCKS st)
        !! node_id b2 = Some (S k).
Proof.
  intros Hnd Hsplit Hb1 Hb2 Hdiv2 Hmid.
  apply plain_run in Hmid as [Hmid_div Hmid_num].
  exists (blocks_since_division isDivision NUMBERED_BLOCKS pre b1). split.
  - by apply (block_number_general _ _ st pre b1 (mid ++ b2 :: post) Hnd).
  - rewrite (block_number_general _ _ st (pre ++ b1 :: mid) b2 post Hnd);
      [|by rewrite <- app_assoc|exact Hb2].
    f_equal. unfold blocks_since_division.
    rewrite (since_last_division_snoc _ (pre ++ b1 :: mid)), Hdiv2.
    rewrite removelast_last.
    change (pre ++ b1 :: mid) with (pre ++ [b1] ++ mid).
    rewrite app_assoc, since_last_division_app by exact Hmid_div.
    rewrite List.filter_app, Hmid_num, app_nil_r.
    rewrite since_last_division_snoc.
    destruct (isDivision b1).
    + simpl. by rewrite Hb1.
    + rewrite removelast_last, List.filter_app, length_app. simpl.
      rewrite Hb1. simpl. lia.
Qed.

Lemma block_pass_skips st n ps :
  NoDup (tree_ids (root st)) → in_tree (root st) n ps →
  isElement n && is_numbered_block NUMBERED_BLOCKS n = false →
  _xastBlockToNumber (_generateBlockToNumberMap isDivision NUMBERED_BLOCKS st)
    !! node_id n
  = _xastBlockToNumber st !! node_id n.
Proof.
  intros Hnd Hin Hn. rewrite _generateBlockToNumberMap_fold.
  rewrite number_step_unnumbered; [reflexivity|].
  intros x Hx Hid. rewrite <- preorder_ids in Hnd.
  apply list_elem_of_In, List.filter_In in Hx as [Hx Hel].
  assert (x = n) as ->.
  { apply (NoDup_fmap_eq node_id (preorder (root st)) x n Hnd); [| |exact Hid].
    - by apply list_elem_of_In.
    - apply traversal_in_tree in Hin. rewrite <- traversal_preorder.
      by apply (list_elem_of_fmap_2 fst) in Hin. }
  by rewrite Hel in Hn.
Qed.

(** X13: the pass numbers the elements whose name is in [NUMBERED_BLOCKS],
    and nothing else.  For a node of the tree that had no number before, as
    at construction, it has one after the pass exactly when it is an element
    and a numbered block; a processing instruction or a doctype with such a
    name gets none, since the walk is restricted to elements. *)
Theorem block_number_keys st n ps :
  NoDup (tree_ids (root st)) →
  in_tree (root st) n ps →
  _xastBlockToNumber st !! node_id n = None →
  is_Some (_xastBlockToNumber
             (_generateBlockToNumberMap isDivision NUMBERED_BLOCKS st)
             !! node_id n)
  ↔ isElement n = true ∧ is_numbered_block NUMBERED_BLOCKS n = true.
Proof.
  intros Hnd Hin Hfresh. split.
  - intros Hsome.
    destruct (isElement n && is_numbered_block NUMBERED_BLOCKS n) eqn:Hn.
    + by apply andb_true_iff in Hn.
    + rewrite (block_pass_skips st n ps Hnd Hin Hn), Hfresh in Hsome.
      by destruct Hsome.
  - intros [Hel Hnum].
    assert (n ∈ List.filter isElement (preorder (root st))) as Hmem.
    { apply list_elem_of_In, List.filter_In. split; [|exact Hel].
      apply list_elem_of_In. apply traversal_in_tree in Hin.
      rewrite <- traversal_preorder.
      by apply (list_elem_of_fmap_2 fst) in Hin. }
    apply list_elem_of_split in Hmem as (pre & post & Hsplit).
    rewrite (block_number_general _ _ st pre n post Hnd Hsplit Hnum).
    by eexists.
Qed.

(** X14: [getBlockInfo] of a numbered block.  After the block pass and the
    division pass, for an element whose name is in [NUMBERED_BLOCKS] and
    whose division carries a non-empty [xml:id] with an entry in the ToC
    info map, the result holds the display name, that entry, and as
    [number] the count of the numbered blocks visited since the most recent
    division. *)
Theorem getBlockInfo_numbered st a nm attrs cs pre post ps d info :
  let n := NodeContent (XastElement a nm attrs cs) in
  NoDup (tree_ids (root st)) →
  in_tree (root st) n ps →
  List.filter isElement (preorder (root st)) = pre ++ n :: post →
  nm ∈ NUMBERED_BLOCKS →
  nearest_division st n ps = Some d →
  attribute_or_empty "xml:id" d ≠ "" →
  toc_entry_of st d = Some info →
  getBlockInfo STRING_ID_TO_DISPLAY_NAME
    (_generateNodeToDivisionIdMap
       (_generateBlockToNumberMap isDivision NUMBERED_BLOCKS st))
    a nm attrs cs
  = Some (mkBlockInfo (display_name_or STRING_ID_TO_DISPLAY_NAME nm)
            (Some (blocks_since_division isDivision NUMBERED_BLOCKS pre n))
            info).
Proof.
  intros n Hnd Hin Hsplit Hnm Hd Hid Hinfo.
  pose proof (_generateBlockToNumberMap_same isDivision NUMBERED_BLOCKS st)
    as (Hroot & Hdivs & Htoc & _).
  pose proof (block_number_general isDivision NUMBERED_BLOCKS st pre n post
                Hnd Hsplit) as Hnum.
  set (st1 := _generateBlockToNumberMap isDivision NUMBERED_BLOCKS st) in *.
  unfold getBlockInfo, getTocItemInfo. fold n.
  rewrite (_generateNodeToDivisionIdMap_lookup st1 n ps)
    by (by rewrite Hroot).
  rewrite (nearest_division_divisions st st1 n ps Hdivs), Hd.
  rewrite bool_decide_eq_false_2 by exact Hid.
  rewrite _generateNodeToDivisionIdMap_tocInfoMap, Htoc.
  unfold toc_entry_of in Hinfo. rewrite Hinfo.
  rewrite _generateNodeToDivisionIdMap_blocks.
  rewrite Hnum; [reflexivity|]. by apply bool_decide_eq_true_2.
Qed.

End block_numbers_more.

(** ** Division membership and the queries, further *)

Section queries_more.

Variable STRING_ID_TO_DISPLAY_NAME : gmap string string.

(** X15: a node that is not a recorded division belongs to the division of
    its parent.  After the division pass the division-membership map holds
    for it what it holds for its parent, and [getTocItemInfo] and
    [getDivisionDisplayName] answer for it as they do for its parent.  The
    tree holds no object twice, and the map agreed on the two nodes before,
    as at construction, where it knew neither. *)
Theorem division_inherited st p ps c :
  NoDup (tree_ids (root st)) →
  in_tree (root st) p ps →
  c ∈ node_children p →
  is_recorded_division st (NodeContent c) = false →
  _xastNodeToTocDivisionId st !! content_id c
  = _xastNodeToTocDivisionId st !! node_id p →
  let st' := _generateNodeToDivisionIdMap st in
  _xastNodeToTocDivisionId st' !! content_id c
  = _xastNodeToTocDivisionId st' !! node_id p
  ∧ getTocItemInfo st' (NodeContent c) = getTocItemInfo st' p
  ∧ getDivisionDisplayName STRING_ID_TO_DISPLAY_NAME st' (NodeContent c)
    = getDivisionDisplayName STRING_ID_TO_DISPLAY_NAME st' p.
Proof.
  intros Hnd Hp Hc Hdiv Hbefore st'.
  assert (in_tree (root st) (NodeContent c) (p :: ps)) as Hin
    by (by eapply descends_child).
  assert (_xastNodeToTocDivisionId st' !! content_id c
          = _xastNodeToTocDivisionId st' !! node_id p) as Hmap.
  { subst st'. change (content_id c) with (node_id (NodeContent c)).
    rewrite (_generateNodeToDivisionIdMap_lookup st _ _ Hnd Hin).
    rewrite (_generateNodeToDivisionIdMap_lookup st _ _ Hnd Hp).
    assert (nearest_division st (NodeContent c) (p :: ps)
            = nearest_division st p ps) as ->.
    { unfold nearest_division. rewrite Hdiv. simpl.
      by destruct (is_recorded_division st p). }
    by destruct (nearest_division st p ps). }
  split; [exact Hmap|].
  unfold getTocItemInfo, getDivisionDisplayName.
  change (node_id (NodeContent c)) with (content_id c). by rewrite Hmap.
Qed.

(** X16: [getDivisionDisplayName] agrees with [getTocItemInfo]: whenever
    [getTocItemInfo(node)] finds an entry, [getDivisionDisplayName(node)] is
    the display name of the division of that entry's item. *)
Theorem display_name_of_toc_item st n info :
  getTocItemInfo st n = Some info →
  getDivisionDisplayName STRING_ID_TO_DISPLAY_NAME st n
  = STRING_ID_TO_DISPLAY_NAME !! toc_division (item info).
Proof.
  unfold getTocItemInfo, getDivisionDisplayName.
  destruct (_xastNodeToTocDivisionId st !! node_id n) as [tocParentId|];
    [|discriminate].
  case_bool_decide; [discriminate|]. simpl. by intros ->.
Qed.

End queries_more.

(** ** Objects that occur twice, and nodes without a division *)

(** X17: an object that occurs more than once in the tree is mapped to the
    parent of its last occurrence in document order: the pass does not look
    for an entry before it writes, and each visit of the object overwrites
    the entry of the visit before. *)
Theorem parent_of_last_visit r st l1 n p ps l2 :
  traversal r = l1 ++ (n, p :: ps) :: l2 →
  (node_id n ∉ (node_id ∘ fst) <$> l2) →
  _parentMap (_generateParentMap (set_root r st)) !! node_id n = Some p.
Proof.
  intros Hsplit Hlast. rewrite _generateParentMap_fold.
  change (root (set_root r st)) with r. rewrite Hsplit.
  rewrite (foldl_lookup_at _parentMap parent_visitor (node_id ∘ fst)
             parent_visitor_frame l1 (n, p :: ps) l2 _ Hlast).
  unfold parent_visitor. simpl. apply lookup_insert_eq.
Qed.

(** X18: where the division-membership map has no entry for a node, or the
    empty string, the two lookups of the ToC info map part: [getTocItemInfo]
    tests [if (tocParentId)] and is absent, while [getDivisionDisplayName]
    looks [tocParentId || ""] up and answers with whatever entry the ToC
    info map holds under the empty string. *)
Theorem display_name_without_division
    (STRING_ID_TO_DISPLAY_NAME : gmap string string) st n :
  default "" (_xastNodeToTocDivisionId st !! node_id n) = "" →
  getTocItemInfo st n = None
  ∧ getDivisionDisplayName STRING_ID_TO_DISPLAY_NAME st n
    = match _tocInfoMap st !! "" with
      | Some tocInfo =>
          STRING_ID_TO_DISPLAY_NAME !! toc_division (item tocInfo)
      | None => None
      end.
Proof.
  unfold getTocItemInfo, getDivisionDisplayName.
  destruct (_xastNodeToTocDivisionId st !! node_id n) as [tocParentId|];
    simpl; intros Hempty; [|done].
  by rewrite Hempty.
Qed.

(** ** The further statements at the documents above *)

Lemma parent_of_last_visit_witness :
  traversal shared_root
  = [(NodeRoot shared_root, []);
     (NodeContent first_holder, [NodeRoot shared_root]);
     (NodeContent shared_text,
      [NodeContent first_holder; NodeRoot shared_root]);
     (NodeContent second_holder, [NodeRoot shared_root])]
    ++ (NodeContent shared_text,
        [NodeContent second_holder; NodeRoot shared_root]) :: []
  ∧ (node_id (NodeContent shared_text)
       ∉ (node_id ∘ fst) <$> ([] : list (XastNode * list XastNode)))
  ∧ ¬ NoDup (tree_ids shared_root)
  ∧ _parentMap (_generateParentMap (set_root shared_root (constructor 0)))
      !! node_id (NodeContent shared_text)
    = Some (NodeContent second_holder).
Proof.
  assert (node_id (NodeContent shared_text)
            ∉ (node_id ∘ fst) <$> ([] : list (XastNode * list XastNode)))
    as Hlast by (by intros ?%elem_of_nil).
  split; [reflexivity|]. split; [exact Hlast|]. split; [compute_done|].
  exact (parent_of_last_visit shared_root (constructor 0)
           [(NodeRoot shared_root, []);
            (NodeContent first_holder, [NodeRoot shared_root]);
            (NodeContent shared_text,
             [NodeContent first_holder; NodeRoot shared_root]);
            (NodeContent second_holder, [NodeRoot shared_root])]
           (NodeContent shared_text) (NodeContent second_holder)
           [NodeRoot shared_root] [] eq_refl Hlast).
Defined.

Lemma display_name_without_division_witness :
  let st' := _generateNodeToDivisionIdMap unlabelled_state_with_entry in
  default "" (_xastNodeToTocDivisionId st' !! node_id (NodeContent lone_p)) = ""
  ∧ getTocItemInfo st' (NodeContent lone_p) = None
  ∧ getDivisionDisplayName sample_display_names st' (NodeContent lone_p)
    = Some "Chapter".
Proof.
  intros st'. split; [reflexivity|].
  exact (display_name_without_division sample_display_names st'
           (NodeContent lone_p) eq_refl).
Defined.

Lemma block_number_successor_witness :
  let numbers :=
    _xastBlockToNumber
      (_generateBlockToNumberMap (tagged sample_divisions)
         sample_numbered_blocks scenario_state) in
  NoDup (tree_ids (root scenario_state))
  ∧ List.filter isElement (preorder (root scenario_state))
    = [NodeContent chapter_c1] ++ NodeContent outer_definition
      :: [] ++ NodeContent theorem_node
      :: [NodeContent section_s1; NodeContent inner_definition]
  ∧ is_numbered_block sample_numbered_blocks (NodeContent outer_definition)
    = true
  ∧ is_numbered_block sample_numbered_blocks (NodeContent theorem_node) = true
  ∧ tagged sample_divisions (NodeContent theorem_node) = false
  ∧ ∃ k, numbers !! node_id (NodeContent outer_definition) = Some k
         ∧ numbers !! node_id (NodeContent theorem_node) = Some (S k).
Proof.
  intros numbers.
  assert (NoDup (tree_ids (root scenario_state))) as Hnd by compute_done.
  split; [exact Hnd|]. split; [reflexivity|]. split; [reflexivity|].
  split; [reflexivity|]. split; [reflexivity|].
  apply (block_number_successor (tagged sample_divisions)
           sample_numbered_blocks scenario_state [NodeContent chapter_c1]
           (NodeContent outer_definition) [] (NodeContent theorem_node)
           [NodeContent section_s1; NodeContent inner_definition]
           Hnd eq_refl eq_refl eq_refl eq_refl).
  by intros x ?%elem_of_nil.
Defined.

Lemma block_number_keys_witness :
  let numbers :=
    _xastBlockToNumber
      (_generateBlockToNumberMap (tagged sample_divisions)
         sample_numbered_blocks instruction_state) in
  let ps := [NodeContent chapter_with_instruction; NodeRoot instruction_root] in
  NoDup (tree_ids (root instruction_state))
  ∧ in_tree (root instruction_state) (NodeContent theorem_instruction) ps
  ∧ in_tree (root instruction_state) (NodeContent theorem_element) ps
  ∧ _xastBlockToNumber instruction_state !! 32 = None
  ∧ _xastBlockToNumber instruction_state !! 33 = None
  ∧ is_numbered_block sample_numbered_blocks (NodeContent theorem_instruction)
    = true
  ∧ ¬ is_Some (numbers !! 32)
  ∧ is_Some (numbers !! 33).
Proof.
  intros numbers ps.
  assert (NoDup (tree_ids (root instruction_state))) as Hnd by compute_done.
  assert (in_tree (root instruction_state) (NodeContent theorem_instruction)
            ps) as Hin1 by in_tree_solver.
  assert (in_tree (root instruction_state) (NodeContent theorem_element) ps)
    as Hin2 by in_tree_solver.
  split; [exact Hnd|]. split; [exact Hin1|]. split; [exact Hin2|].
  split; [reflexivity|]. split; [reflexivity|]. split; [reflexivity|].
  split.
  - intros Hsome.
    apply (block_number_keys (tagged sample_divisions) sample_numbered_blocks
             instruction_state _ ps Hnd Hin1 eq_refl) in Hsome as [Hel _].
    discriminate Hel.
  - by apply (block_number_keys (tagged sample_divisions)
                sample_numbered_blocks instruction_state _ ps Hnd Hin2
                eq_refl).
Defined.

Lemma getBlockInfo_numbered_witness :
  let ps := [NodeContent chapter_c1; NodeRoot scenario_root] in
  NoDup (tree_ids (root scenario_state))
  ∧ in_tree (root scenario_state) (NodeContent theorem_node) ps
  ∧ List.filter isElement (preorder (root scenario_state))
    = [NodeContent chapter_c1; NodeContent outer_definition]
      ++ NodeContent theorem_node
      :: [NodeContent section_s1; NodeContent inner_definition]
  ∧ "theorem" ∈ sample_numbered_blocks
  ∧ nearest_division scenario_state (NodeContent theorem_node) ps
    = Some (NodeContent chapter_c1)
  ∧ attribute_or_empty "xml:id" (NodeContent chapter_c1) ≠ ""
  ∧ toc_entry_of scenario_state (NodeContent chapter_c1) = Some c1_info
  ∧ getBlockInfo sample_display_names
      (_generateNodeToDivisionIdMap
         (_generateBlockToNumberMap (tagged sample_divisions)
            sample_numbered_blocks scenario_state))
      3 "theorem" None []
    = Some (mkBlockInfo "theorem" (Some 1) c1_info).
Proof.
  intros ps.
  assert (NoDup (tree_ids (root scenario_state))) as Hnd by compute_done.
  assert (in_tree (root scenario_state) (NodeContent theorem_node) ps) as Hin
    by in_tree_solver.
  assert ("theorem" ∈ sample_numbered_blocks) as Hnm by compute_done.
  assert (attribute_or_empty "xml:id" (NodeContent chapter_c1) ≠ "") as Hid
    by compute_done.
  split; [exact Hnd|]. split; [exact Hin|]. split; [reflexivity|].
  split; [exact Hnm|]. split; [reflexivity|]. split; [exact Hid|].
  split; [reflexivity|].
  exact (getBlockInfo_numbered (tagged sample_divisions)
           sample_numbered_blocks sample_display_names scenario_state
           3 "theorem" None []
           [NodeContent chapter_c1; NodeContent outer_definition]
           [NodeContent section_s1; NodeContent inner_definition] ps
           (NodeContent chapter_c1) c1_info Hnd Hin eq_refl Hnm eq_refl Hid
           eq_refl).
Defined.

Lemma division_inherited_witness :
  let st' := _generateNodeToDivisionIdMap scenario_state in
  NoDup (tree_ids (root scenario_state))
  ∧ in_tree (root scenario_state) (NodeContent section_s1)
      [NodeContent chapter_c1; NodeRoot scenario_root]
  ∧ inner_definition ∈ node_children (NodeContent section_s1)
  ∧ is_recorded_division scenario_state (NodeContent inner_definition) = false
  ∧ _xastNodeToTocDivisionId scenario_state !! content_id inner_definition
    = _xastNodeToTocDivisionId scenario_state
        !! node_id (NodeContent section_s1)
  ∧ _xastNodeToTocDivisionId st' !! content_id inner_definition
    = _xastNodeToTocDivisionId st' !! node_id (NodeContent section_s1)
  ∧ getTocItemInfo st' (NodeContent inner_definition)
    = getTocItemInfo st' (NodeContent section_s1)
  ∧ getDivisionDisplayName sample_display_names st'
      (NodeContent inner_definition)
    = getDivisionDisplayName sample_display_names st' (NodeContent section_s1).
Proof.
  intros st'.
  assert (NoDup (tree_ids (root scenario_state))) as Hnd by compute_done.
  assert (in_tree (root scenario_state) (NodeContent section_s1)
            [NodeContent chapter_c1; NodeRoot scenario_root]) as Hin
    by in_tree_solver.
  assert (inner_definition ∈ node_children (NodeContent section_s1)) as Hc
    by (simpl; by repeat constructor).
  split; [exact Hnd|]. split; [exact Hin|]. split; [exact Hc|].
  split; [reflexivity|]. split; [reflexivity|].
  exact (division_inherited sample_display_names scenario_state
           (NodeContent section_s1) _ inner_definition Hnd Hin Hc eq_refl
           eq_refl).
Defined.

Lemma display_name_of_toc_item_witness :
  let st' := _generateNodeToDivisionIdMap scenario_state in
  getTocItemInfo st' (NodeContent theorem_node) = Some c1_info
  ∧ getDivisionDisplayName sample_display_names st' (NodeContent theorem_node)
    = Some "Chapter".
Proof.
  intros st'.
  assert (getTocItemInfo st' (NodeContent theorem_node) = Some c1_info)
    as Hinfo by reflexivity.
  split; [exact Hinfo|].
  exact (display_name_of_toc_item sample_display_names st'
           (NodeContent theorem_node) c1_info Hinfo).
Defined.

(** ** Normalisers that leave their results alone *)

Section normalised.

Variable slugger : string → string.

(** The normaliser leaves its own results unchanged, also when a hyphen and
    a number are appended to them. *)
Hypothesis slugger_idempotent : ∀ v, slugger (slugger v) = slugger v.
Hypothesis slugger_suffix : ∀ v (n : nat),
  slugger (slugger v +:+ "-" +:+ pretty n) = slugger v +:+ "-" +:+ pretty n.

(** X19: for a normaliser that leaves its own results unchanged, also with a
    hyphen and a number appended, no [getUniqueId] call returns an id that
    was passed to an earlier [declareId] call or returned by an earlier
    [getUniqueId] call, whatever the declared ids are. *)
Theorem getUniqueId_avoids_all_declared calls st :
  ∃ outs st',
    run slugger calls st = Some (outs, st')
    ∧ ∀ i j r, j < i → outs !! i = Some (Generated r) →
        outs !! j ≠ Some (Generated r)
        ∧ calls !! j ≠ Some (CallDeclareId r).
Proof.
  destruct (run_fresh slugger calls st [] [])
    as (outs & st' & Hrun & _ & Hout).
  { split; intros x Hx; by apply elem_of_nil in Hx. }
  exists outs, st'. split; [exact Hrun|].
  intros i j r Hj Hi. destruct (Hout i r Hi) as (_ & _ & Hshape & Hbefore).
  destruct (Hbefore j Hj) as [Hgen Hdecl]. split; [exact Hgen|].
  intros Hcall. apply (Hdecl r Hcall); [|reflexivity].
  destruct Hshape as (v & [->|[n ->]]);
    [apply slugger_idempotent | apply slugger_suffix].
Qed.

End normalised.

Lemma getUniqueId_avoids_all_declared_witness :
  (∀ v, ascii_slugger (ascii_slugger v) = ascii_slugger v)
  ∧ (∀ v (n : nat),
       ascii_slugger (ascii_slugger v +:+ "-" +:+ pretty n)
       = ascii_slugger v +:+ "-" +:+ pretty n)
  ∧ ∃ outs st',
      run ascii_slugger
        [CallGetUniqueId (Some "foo"); CallDeclareId "foo-1";
         CallGetUniqueId (Some "foo"); CallGetUniqueId None]
        (constructor 0) = Some (outs, st')
      ∧ ∀ i j r, j < i → outs !! i = Some (Generated r) →
          outs !! j ≠ Some (Generated r)
          ∧ [CallGetUniqueId (Some "foo"); CallDeclareId "foo-1";
             CallGetUniqueId (Some "foo"); CallGetUniqueId None] !! j
            ≠ Some (CallDeclareId r).
Proof.
  split; [exact ascii_slugger_idempotent|].
  split; [exact ascii_slugger_suffix|].
  exact (getUniqueId_avoids_all_declared ascii_slugger
           ascii_slugger_idempotent ascii_slugger_suffix
           [CallGetUniqueId (Some "foo"); CallDeclareId "foo-1";
            CallGetUniqueId (Some "foo"); CallGetUniqueId None]
           (constructor 0)).
Defined.
